(** * LetsCycleToRecycle: the intake transaction and the MAC lookup

    A shallow embedding of [services.py] (with the connection factory of
    [db.py]) and the properties of the intake workflow and of the lookup
    query that its specification states.

    Conventions of the embedding.
    - Python [str] values are [string]s of ASCII characters; an argument
      that may be [None] is an [option string]; a [float] is a binary64
      number of [PrimFloat].
    - A Python function that may raise has type [M A]: it takes the world
      (database, sequences, open connections, QR folder, console) and
      returns an [outcome], a value or an exception, together with the
      world it leaves behind.
    - The Oracle store and the QR renderer are external collaborators.  The
      tables are lists of rows in insertion order.  A connection works on
      its own view of the tables, which starts from the committed ones;
      [commit] publishes it, [rollback] and [close] discard it.  Sequences
      advance for good.  Every call that reaches the store or writes the QR
      image may fail: the world carries the schedule of such failures
      ([faults]), and the theorems quantify over all schedules.  What the
      schema would refuse (a constraint) is such a failure.  Releasing a
      cursor or a connection and printing do not fail.
    - The form of a request is a finite map from field names to texts, as
      [form_data.get] reads it. *)

From Stdlib Require Import ZArith List String Ascii Bool Lia.
From Stdlib Require Import Floats.
From stdpp Require Import base option gmap strings pretty.

Import ListNotations.
Local Open Scope string_scope.
Local Open Scope Z_scope.

(* ===================================================================== *)
(** * Python strings *)
(* ===================================================================== *)

Module PyStr.

(** [str.isspace] on an ASCII character: TAB, LF, VT, FF, CR, the four
    separators FS GS RS US, and the space. *)
Definition isspace (c : ascii) : bool :=
  let n := nat_of_ascii c in
  ((9 <=? n)%nat && (n <=? 13)%nat) || ((28 <=? n)%nat && (n <=? 32)%nat).

Definition is_empty (s : string) : bool :=
  match s with EmptyString => true | String _ _ => false end.

Fixpoint lstrip (s : string) : string :=
  match s with
  | EmptyString => EmptyString
  | String c s' => if isspace c then lstrip s' else s
  end.

Fixpoint rstrip (s : string) : string :=
  match s with
  | EmptyString => EmptyString
  | String c s' =>
      match rstrip s' with
      | EmptyString => if isspace c then EmptyString else String c EmptyString
      | r => String c r
      end
  end.

(** [s.strip()] *)
Definition strip (s : string) : string := rstrip (lstrip s).

(** [s.split()]: the maximal runs of non-space characters, in order.
    [tok] is the run being read. *)
Fixpoint split_from (tok : string) (s : string) : list string :=
  match s with
  | EmptyString => if is_empty tok then [] else [tok]
  | String c s' =>
      if isspace c
      then (if is_empty tok then split_from EmptyString s'
            else tok :: split_from EmptyString s')
      else split_from (tok ++ String c EmptyString) s'
  end.

Definition split (s : string) : list string := split_from EmptyString s.

(** [sep.join(parts)] *)
Fixpoint join (sep : string) (parts : list string) : string :=
  match parts with
  | [] => EmptyString
  | [p] => p
  | p :: ps => p ++ sep ++ join sep ps
  end.

(** [x or ""] for [x] a string or [None]. *)
Definition or_empty (x : option string) : string :=
  match x with
  | Some s => s
  | None => EmptyString
  end.

(** [str(n)] for an integer. *)
Definition str_of_Z (n : Z) : string := pretty n.

Definition lower_ascii (c : ascii) : ascii :=
  let n := nat_of_ascii c in
  if ((65 <=? n)%nat && (n <=? 90)%nat) then ascii_of_nat (n + 32) else c.

Fixpoint lower (s : string) : string :=
  match s with
  | EmptyString => EmptyString
  | String c s' => String (lower_ascii c) (lower s')
  end.

End PyStr.

(* ===================================================================== *)
(** * The builtin [float(str)] *)
(* ===================================================================== *)

(** [float] is a builtin of the language, not code of the repository; it is
    modelled by the grammar of the language reference,

      floatvalue  ::= [sign] (floatnumber | "inf" | "infinity" | "nan")
      floatnumber ::= number [exponent]
      number      ::= [digitpart] "." digitpart | digitpart ["."]
      digitpart   ::= digit (["_"] digit)*
      exponent    ::= ("e" | "E") [sign] digitpart

    and by the correctly rounded conversion of the decimal value to
    binary64.  [None] stands for [ValueError]. *)
Module PyFloat.

Definition is_digit (c : ascii) : bool :=
  let n := nat_of_ascii c in (48 <=? n)%nat && (n <=? 57)%nat.

Definition digit_val (c : ascii) : Z := Z.of_nat (nat_of_ascii c) - 48.

(** The rest of a [digitpart], after its first digit. *)
Fixpoint digits_rest (s : string) : list Z * string :=
  match s with
  | EmptyString => ([], EmptyString)
  | String c s' =>
      if is_digit c then
        let '(ds, r) := digits_rest s' in (digit_val c :: ds, r)
      else if Ascii.eqb c "_" then
        match s' with
        | String d s'' =>
            if is_digit d then
              let '(ds, r) := digits_rest s'' in (digit_val d :: ds, r)
            else ([], s)
        | EmptyString => ([], s)
        end
      else ([], s)
  end.

Definition digitpart (s : string) : option (list Z * string) :=
  match s with
  | String c s' =>
      if is_digit c then
        let '(ds, r) := digits_rest s' in Some (digit_val c :: ds, r)
      else None
  | EmptyString => None
  end.

Definition sign (s : string) : bool * string :=
  match s with
  | String "+" r => (false, r)
  | String "-" r => (true, r)
  | _ => (false, s)
  end.

(** Integer digits, fraction digits, and what follows the number. *)
Definition number (s : string) : option (list Z * list Z * string) :=
  match digitpart s with
  | Some (ip, r) =>
      match r with
      | String "." r' =>
          match digitpart r' with
          | Some (fp, r'') => Some (ip, fp, r'')
          | None => Some (ip, [], r')
          end
      | _ => Some (ip, [], r)
      end
  | None =>
      match s with
      | String "." r' =>
          match digitpart r' with
          | Some (fp, r'') => Some ([], fp, r'')
          | None => None
          end
      | _ => None
      end
  end.

Definition Z_of_digits (ds : list Z) : Z :=
  fold_left (fun acc d => 10 * acc + d) ds 0.

(** The exponent that ends the literal: the whole rest must be consumed. *)
Definition exponent (s : string) : option Z :=
  match s with
  | EmptyString => Some 0
  | String c r =>
      if Ascii.eqb c "e" || Ascii.eqb c "E" then
        let '(neg, r1) := sign r in
        match digitpart r1 with
        | Some (ds, EmptyString) =>
            Some (if neg then - Z_of_digits ds else Z_of_digits ds)
        | _ => None
        end
      else None
  end.

(** The binary64 number nearest to [(-1)^neg * m * 10^e], ties to even. *)
Definition round_decimal (neg : bool) (m e : Z) : spec_float :=
  match m with
  | Zpos p =>
      if 0 <=? e
      then binary_round prec emax neg (p * Z.to_pos (10 ^ e)) 0
      else SFdiv prec emax (S754_finite neg p 0)
                           (S754_finite false (Z.to_pos (10 ^ (- e))) 0)
  | _ => S754_zero neg
  end.

Definition floatnumber (neg : bool) (s : string) : option spec_float :=
  match number s with
  | Some (ip, fp, r) =>
      match exponent r with
      | Some ex =>
          Some (round_decimal neg (Z_of_digits (ip ++ fp))
                                  (ex - Z.of_nat (length fp)))
      | None => None
      end
  | None => None
  end.

Definition parse (s : string) : option spec_float :=
  let '(neg, r) := sign (PyStr.strip s) in
  let l := PyStr.lower r in
  if String.eqb l "inf" || String.eqb l "infinity" then Some (S754_infinity neg)
  else if String.eqb l "nan" then Some S754_nan
  else floatnumber neg r.

(** [float(s)] *)
Definition float_of_str (s : string) : option float :=
  option_map SF2Prim (parse s).

End PyFloat.

(* ===================================================================== *)
(** * Exceptions and the monad of effects *)
(* ===================================================================== *)

Inductive exn : Type :=
| ValueError                       (* float() on a malformed literal *)
| DatabaseError                    (* any error raised by the store driver *)
| InterfaceError                   (* use of a connection that is not open *)
| OSError                          (* the QR image could not be written *)
| NoEmployeeFound (username : string).
                                   (* Exception("No Employee found ...") *)

Inductive outcome (A : Type) : Type :=
| Returns (a : A)
| Raises (e : exn).
Arguments Returns {A} a.
Arguments Raises {A} e.

(** ** The relational store (section 3 of the specification) *)

Record Date := { year : Z; month : Z; day : Z }.

Record Employee := { e_EmpNo : Z; e_EmpEmail : string }.

Record Customer := {
  c_CustNo : Z;
  c_CustFirstName : string;
  c_CustLastName : string;
  c_CustEmail : string
}.

Record RecyclingOrder := {
  r_OrdNo : Z;
  r_OrdDate : Date;
  r_CustNo : Z;
  r_EmpNo : Z;
  r_DropOffSite : string
}.

Record Device := {
  d_DeviceID : Z;
  d_DeviceType : string;
  d_Make : string;
  d_Model : string;
  d_SerialNo : string;
  d_QRCode : string;
  d_IotMacAddr : string;
  d_HazardClass : string;
  d_WeightKg : float;
  d_Status : string;
  d_OrigCustNo : Z
}.

Record OrdLine := {
  ol_OrdNo : Z;
  ol_LineNo : Z;
  ol_DeviceID : Z;
  ol_ActionCode : string;
  ol_Qty : Z;
  ol_Notes : string
}.

Record Tables := {
  Employee_t : list Employee;
  Customer_t : list Customer;
  RecyclingOrder_t : list RecyclingOrder;
  Device_t : list Device;
  OrdLine_t : list OrdLine
}.

Inductive sequence : Type := seq_customer | seq_order | seq_device.

(** ** The world *)

Record World := {
  db : Tables;                      (* the committed tables *)
  next_customer : Z;                (* seq_customer *)
  next_order : Z;                   (* seq_order *)
  next_device : Z;                  (* seq_device *)
  sysdate : Date;                   (* SYSDATE *)
  sessions : gmap nat Tables;       (* open connections, each with the
                                       tables as its transaction sees them *)
  next_conn : nat;                  (* handle of the next connection *)
  qr_codes : gmap string string;    (* QR_FOLDER: file name -> encoded URL *)
  BASE_TRACK_URL : string;
  faults : list bool;               (* which of the coming external calls
                                       fail; none once it is exhausted *)
  console : list (string * exn)     (* what print() wrote *)
}.

Definition M (A : Type) : Type := World -> outcome A * World.

Definition ret {A} (a : A) : M A := fun w => (Returns a, w).

Definition raise {A} (e : exn) : M A := fun w => (Raises e, w).

Definition bind {A B} (m : M A) (k : A -> M B) : M B :=
  fun w =>
    match m w with
    | (Returns a, w') => k a w'
    | (Raises e, w') => (Raises e, w')
    end.

Declare Scope py_scope.
Delimit Scope py_scope with py.
Notation "x <- m ;; k" := (bind m (fun x => k))
  (at level 100, m at next level, right associativity) : py_scope.
Notation "m ;;; k" := (bind m (fun _ => k))
  (at level 100, right associativity) : py_scope.
Local Open Scope py_scope.

(** [try: body except Exception as e: handler e] *)
Definition try_except {A} (body : M A) (handler : exn -> M A) : M A :=
  fun w =>
    match body w with
    | (Returns a, w') => (Returns a, w')
    | (Raises e, w') => handler e w'
    end.

(** [try: body finally: fin].  The outcome of [body] stands unless [fin]
    itself raises. *)
Definition try_finally {A} (body : M A) (fin : M unit) : M A :=
  fun w =>
    match body w with
    | (o, w') =>
        match fin w' with
        | (Returns _, w'') => (o, w'')
        | (Raises e, w'') => (Raises e, w'')
        end
    end.

(** A pure computation that may raise, run inside [M]. *)
Definition lift {A} (o : outcome A) : M A := fun w => (o, w).

(** ** Field updates of the world *)

Definition set_db (T : Tables) (w : World) : World :=
  {| db := T; next_customer := next_customer w; next_order := next_order w;
     next_device := next_device w; sysdate := sysdate w;
     sessions := sessions w; next_conn := next_conn w;
     qr_codes := qr_codes w; BASE_TRACK_URL := BASE_TRACK_URL w;
     faults := faults w; console := console w |}.

Definition set_sessions (s : gmap nat Tables) (w : World) : World :=
  {| db := db w; next_customer := next_customer w; next_order := next_order w;
     next_device := next_device w; sysdate := sysdate w;
     sessions := s; next_conn := next_conn w;
     qr_codes := qr_codes w; BASE_TRACK_URL := BASE_TRACK_URL w;
     faults := faults w; console := console w |}.

Definition set_next_conn (n : nat) (w : World) : World :=
  {| db := db w; next_customer := next_customer w; next_order := next_order w;
     next_device := next_device w; sysdate := sysdate w;
     sessions := sessions w; next_conn := n;
     qr_codes := qr_codes w; BASE_TRACK_URL := BASE_TRACK_URL w;
     faults := faults w; console := console w |}.

Definition set_faults (fs : list bool) (w : World) : World :=
  {| db := db w; next_customer := next_customer w; next_order := next_order w;
     next_device := next_device w; sysdate := sysdate w;
     sessions := sessions w; next_conn := next_conn w;
     qr_codes := qr_codes w; BASE_TRACK_URL := BASE_TRACK_URL w;
     faults := fs; console := console w |}.

Definition set_qr_codes (q : gmap string string) (w : World) : World :=
  {| db := db w; next_customer := next_customer w; next_order := next_order w;
     next_device := next_device w; sysdate := sysdate w;
     sessions := sessions w; next_conn := next_conn w;
     qr_codes := q; BASE_TRACK_URL := BASE_TRACK_URL w;
     faults := faults w; console := console w |}.

Definition set_console (c : list (string * exn)) (w : World) : World :=
  {| db := db w; next_customer := next_customer w; next_order := next_order w;
     next_device := next_device w; sysdate := sysdate w;
     sessions := sessions w; next_conn := next_conn w;
     qr_codes := qr_codes w; BASE_TRACK_URL := BASE_TRACK_URL w;
     faults := faults w; console := c |}.

Definition seq_value (s : sequence) (w : World) : Z :=
  match s with
  | seq_customer => next_customer w
  | seq_order => next_order w
  | seq_device => next_device w
  end.

Definition seq_advance (s : sequence) (w : World) : World :=
  {| db := db w;
     next_customer :=
       match s with seq_customer => next_customer w + 1 | _ => next_customer w end;
     next_order :=
       match s with seq_order => next_order w + 1 | _ => next_order w end;
     next_device :=
       match s with seq_device => next_device w + 1 | _ => next_device w end;
     sysdate := sysdate w;
     sessions := sessions w; next_conn := next_conn w;
     qr_codes := qr_codes w; BASE_TRACK_URL := BASE_TRACK_URL w;
     faults := faults w; console := console w |}.

(** ** External calls *)

(** One call that leaves the process: it consumes the head of the fault
    schedule and raises [e] when that head says so. *)
Definition external (e : exn) : M unit :=
  fun w =>
    (if hd false (faults w) then Raises e else Returns tt,
     set_faults (tl (faults w)) w).

(** [db.get_connection()]: a new session that starts from the committed
    tables. *)
Definition get_connection : M nat :=
  external DatabaseError ;;;
  fun w =>
    let c := next_conn w in
    (Returns c, set_next_conn (S c) (set_sessions (<[c := db w]> (sessions w)) w)).

(** [conn.cursor()]: no round trip, but the connection must be open.  A
    cursor is identified with the connection it belongs to. *)
Definition cursor (conn : nat) : M nat :=
  fun w =>
    match sessions w !! conn with
    | Some _ => (Returns conn, w)
    | None => (Raises InterfaceError, w)
    end.

(** [cur.execute(SELECT ...)] followed by [cur.fetchone()]/[fetchall]: the
    statement is evaluated on the tables of the session. *)
Definition execute_query {A} (cur : nat) (q : Tables -> A) : M A :=
  external DatabaseError ;;;
  fun w =>
    match sessions w !! cur with
    | Some T => (Returns (q T), w)
    | None => (Raises InterfaceError, w)
    end.

(** [cur.execute(INSERT ...)]: changes the tables of the session only.  The
    statement may read [SYSDATE]. *)
Definition execute_insert (cur : nat) (f : Date -> Tables -> Tables) : M unit :=
  external DatabaseError ;;;
  fun w =>
    match sessions w !! cur with
    | Some T =>
        (Returns tt, set_sessions (<[cur := f (sysdate w) T]> (sessions w)) w)
    | None => (Raises InterfaceError, w)
    end.

(** [cur.execute("SELECT seq.NEXTVAL FROM dual"); cur.fetchone()[0]]: the
    value is consumed for good, whatever becomes of the transaction. *)
Definition nextval (cur : nat) (s : sequence) : M Z :=
  external DatabaseError ;;;
  fun w =>
    match sessions w !! cur with
    | Some _ => (Returns (seq_value s w), seq_advance s w)
    | None => (Raises InterfaceError, w)
    end.

(** [conn.commit()]: the tables of the session become the committed ones. *)
Definition commit (conn : nat) : M unit :=
  external DatabaseError ;;;
  fun w =>
    match sessions w !! conn with
    | Some T => (Returns tt, set_db T w)
    | None => (Raises InterfaceError, w)
    end.

(** [conn.rollback()]: the session goes back to the committed tables. *)
Definition rollback (conn : nat) : M unit :=
  external DatabaseError ;;;
  fun w =>
    match sessions w !! conn with
    | Some _ => (Returns tt, set_sessions (<[conn := db w]> (sessions w)) w)
    | None => (Raises InterfaceError, w)
    end.

(** [cur.close()]: releases the local cursor object. *)
Definition cursor_close (cur : nat) : M unit := ret tt.

(** [conn.close()]: the session ends and what it had not committed is
    discarded. *)
Definition close (conn : nat) : M unit :=
  fun w => (Returns tt, set_sessions (delete conn (sessions w)) w).

(** [print(msg, e)] *)
Definition print (msg : string) (e : exn) : M unit :=
  fun w => (Returns tt, set_console (console w ++ [(msg, e)]) w).

(* ===================================================================== *)
(** * services.py *)
(* ===================================================================== *)

(** ** Helpers *)

(** [_split_customer_name(full_name)] *)
Definition _split_customer_name (full_name : option string) : string * string :=
  let parts := PyStr.split (PyStr.strip (PyStr.or_empty full_name)) in
  match parts with
  | [] => ("", "")
  | [p] => (p, "")
  | p :: rest => (p, PyStr.join " " rest)
  end.

(** The builtin [float], raising [ValueError]. *)
Definition py_float (s : string) : outcome PrimFloat.float :=
  match PyFloat.float_of_str s with
  | Some x => Returns x
  | None => Raises ValueError
  end.

(** [try: body except ValueError: return default] *)
Definition except_ValueError {A} (body : outcome A) (default : A) : outcome A :=
  match body with
  | Raises ValueError => Returns default
  | o => o
  end.

(** [_parse_weight(value, default)] *)
Definition _parse_weight (value : option string) (default : PrimFloat.float)
  : outcome PrimFloat.float :=
  except_ValueError
    (let value := PyStr.strip (PyStr.or_empty value) in
     if PyStr.is_empty value then Returns default
     else py_float value)
    default.

(** [_generate_qr_for_mac(mac_addr, device_id)].  Rendering and saving the
    image is one call to the external renderer; the file is represented by
    the URL it encodes. *)
Definition _generate_qr_for_mac (mac_addr device_id : string) : M string :=
  fun w =>
    let track_url := BASE_TRACK_URL w ++ mac_addr in
    let qr_filename := device_id ++ ".png" in
    (external OSError ;;;
     (fun w => (Returns qr_filename,
                set_qr_codes (<[qr_filename := track_url]> (qr_codes w)) w))) w.

(** ** SQL *)

(** Comparison of two character values in a [WHERE] clause.  Oracle keeps
    the empty string as NULL, and NULL is equal to nothing. *)
Definition sql_eq (a b : string) : bool :=
  negb (PyStr.is_empty a) && negb (PyStr.is_empty b) && String.eqb a b.

(** [SELECT EmpNo FROM Employee WHERE EmpEmail = :email], [fetchone()] *)
Definition select_EmpNo (email : string) (T : Tables) : option Z :=
  option_map e_EmpNo
    (find (fun e => sql_eq (e_EmpEmail e) email) (Employee_t T)).

(** [SELECT CustNo FROM Customer WHERE CustEmail = :email], [fetchone()] *)
Definition select_CustNo (email : string) (T : Tables) : option Z :=
  option_map c_CustNo
    (find (fun c => sql_eq (c_CustEmail c) email) (Customer_t T)).

Definition insert_Customer (c : Customer) (T : Tables) : Tables :=
  {| Employee_t := Employee_t T;
     Customer_t := Customer_t T ++ [c];
     RecyclingOrder_t := RecyclingOrder_t T;
     Device_t := Device_t T;
     OrdLine_t := OrdLine_t T |}.

Definition insert_RecyclingOrder (r : RecyclingOrder) (T : Tables) : Tables :=
  {| Employee_t := Employee_t T;
     Customer_t := Customer_t T;
     RecyclingOrder_t := RecyclingOrder_t T ++ [r];
     Device_t := Device_t T;
     OrdLine_t := OrdLine_t T |}.

Definition insert_Device (d : Device) (T : Tables) : Tables :=
  {| Employee_t := Employee_t T;
     Customer_t := Customer_t T;
     RecyclingOrder_t := RecyclingOrder_t T;
     Device_t := Device_t T ++ [d];
     OrdLine_t := OrdLine_t T |}.

Definition insert_OrdLine (l : OrdLine) (T : Tables) : Tables :=
  {| Employee_t := Employee_t T;
     Customer_t := Customer_t T;
     RecyclingOrder_t := RecyclingOrder_t T;
     Device_t := Device_t T;
     OrdLine_t := OrdLine_t T ++ [l] |}.

(** A row of the join of the lookup, before the [SELECT] list is applied. *)
Definition JoinRow : Type := Device * OrdLine * RecyclingOrder * Customer.

(** [FROM Device d JOIN OrdLine ol ON ol.DeviceID = d.DeviceID
     JOIN RecyclingOrder r ON r.OrdNo = ol.OrdNo
     JOIN Customer c ON c.CustNo = r.CustNo
     WHERE d.IotMacAddr = :mac] *)
Definition select_device_join (mac : string) (T : Tables) : list JoinRow :=
  d ← Device_t T;
  ol ← OrdLine_t T;
  r ← RecyclingOrder_t T;
  c ← Customer_t T;
  if sql_eq (d_IotMacAddr d) mac
     && (ol_DeviceID ol =? d_DeviceID d)
     && (r_OrdNo r =? ol_OrdNo ol)
     && (c_CustNo c =? r_CustNo r)
  then [(d, ol, r, c)] else [].

(** [TO_CHAR(date, 'YYYY-MM-DD')] *)
Definition zero_pad (width : nat) (n : Z) : string :=
  let s := PyStr.str_of_Z n in
  String.concat "" (repeat "0" (width - String.length s)) ++ s.

Definition TO_CHAR (d : Date) : string :=
  zero_pad 4 (year d) ++ "-" ++ zero_pad 2 (month d) ++ "-" ++ zero_pad 2 (day d).

(** ** Read operation: customer tracking *)

Record DeviceView := {
  v_type : string;
  v_make : string;
  v_model : string;
  v_serial_no : string;
  v_hazard_class : string;
  v_weight_kg : PrimFloat.float;
  v_status : string;
  v_dropoff_site : string;
  v_received_date : string;
  v_customer_name : string;
  v_timeline : list (string * string)
}.

Definition view_of_row (row : JoinRow) : DeviceView :=
  let '(d, ol, r, c) := row in
  {| v_type := d_DeviceType d;
     v_make := d_Make d;
     v_model := d_Model d;
     v_serial_no := d_SerialNo d;
     v_hazard_class := d_HazardClass d;
     v_weight_kg := d_WeightKg d;
     v_status := d_Status d;
     v_dropoff_site := r_DropOffSite r;
     v_received_date := TO_CHAR (r_OrdDate r);
     v_customer_name := c_CustFirstName c ++ " " ++ c_CustLastName c;
     v_timeline :=
       [ ("Received", "Device received at LetsCycleToRecycle center");
         ("Under Recycle Check", "Technician inspecting components");
         ("In Laboratory", "Hazardous materials being processed");
         ("Recycled", "Metals recovered and logged") ] |}.

(** The [try] block of [get_device_by_mac]. *)
Definition lookup_body (mac_addr : string) : M (option DeviceView) :=
  conn <- get_connection ;;
  cur <- cursor conn ;;
  row <- execute_query cur (fun T => head (select_device_join mac_addr T)) ;;
  cursor_close cur ;;;
  close conn ;;;
  match row with
  | None => ret None
  | Some row => ret (Some (view_of_row row))
  end.

(** [get_device_by_mac(mac_addr)] *)
Definition get_device_by_mac (mac_addr : option string) : M (option DeviceView) :=
  let mac_addr := PyStr.strip (PyStr.or_empty mac_addr) in
  if PyStr.is_empty mac_addr then ret None
  else
    try_except (lookup_body mac_addr)
      (fun e => print "Error in get_device_by_mac:" e ;;; ret None).

(** ** Write operation: employee intake *)

(** [form_data.get(key, default)] *)
Definition form_get (form_data : gmap string string) (key dflt : string) : string :=
  default dflt (form_data !! key).

(** The local variables that the first part of
    [register_device_with_order] computes from the form. *)
Record Locals := {
  mac_addr : string;
  device_type : string;
  make : string;
  model : string;
  serial_no : string;
  customer_name : string;
  customer_email : string;
  dropoff_site : string;
  status : string;
  notes : string;
  hazard_class : string;
  weight_kg : PrimFloat.float;
  cust_first : string;
  cust_last : string
}.

(** "Extract & normalize form fields", up to the two defaults of the
    customer name. *)
Definition normalize_form (form_data : gmap string string) : outcome Locals :=
  let mac_addr := PyStr.strip (form_get form_data "mac_address" "") in
  let device_type := PyStr.strip (form_get form_data "device_type" "") in
  let make := PyStr.strip (form_get form_data "make" "") in
  let model := PyStr.strip (form_get form_data "model" "") in
  let serial_no := PyStr.strip (form_get form_data "serial_no" "") in
  let customer_name := PyStr.strip (form_get form_data "customer_name" "") in
  let customer_email := PyStr.strip (form_get form_data "customer_email" "") in
  let dropoff_site :=
    PyStr.strip (form_get form_data "dropoff_site" "Main Facility") in
  let status := PyStr.strip (form_get form_data "status" "Received") in
  let notes := PyStr.strip (form_get form_data "notes" "") in
  let hazard_class := PyStr.strip (form_get form_data "hazard_class" "Medium") in
  match _parse_weight (Some (form_get form_data "weight_kg" "1.0")) 1.0%float with
  | Raises e => Raises e
  | Returns weight_kg =>
      let '(cust_first, cust_last) := _split_customer_name (Some customer_name) in
      let cust_first :=
        if PyStr.is_empty cust_first then "Unknown" else cust_first in
      let cust_last :=
        if PyStr.is_empty cust_last then "Customer" else cust_last in
      Returns
        {| mac_addr := mac_addr; device_type := device_type; make := make;
           model := model; serial_no := serial_no;
           customer_name := customer_name; customer_email := customer_email;
           dropoff_site := dropoff_site; status := status; notes := notes;
           hazard_class := hazard_class; weight_kg := weight_kg;
           cust_first := cust_first; cust_last := cust_last |}
  end.

Record IntakeResult := {
  out_device_id : Z;
  out_qr_filename : string;
  out_mac_addr : string
}.

Definition new_Customer (L : Locals) (cust_no : Z) : Customer :=
  {| c_CustNo := cust_no;
     c_CustFirstName := cust_first L;
     c_CustLastName := cust_last L;
     c_CustEmail := customer_email L |}.

Definition new_RecyclingOrder (L : Locals) (ord_no cust_no emp_no : Z)
    (today : Date) : RecyclingOrder :=
  {| r_OrdNo := ord_no;
     r_OrdDate := today;
     r_CustNo := cust_no;
     r_EmpNo := emp_no;
     r_DropOffSite := dropoff_site L |}.

Definition new_Device (L : Locals) (device_id : Z) (qr_filename : string)
    (cust_no : Z) : Device :=
  {| d_DeviceID := device_id;
     d_DeviceType := device_type L;
     d_Make := make L;
     d_Model := model L;
     d_SerialNo := serial_no L;
     d_QRCode := qr_filename;
     d_IotMacAddr := mac_addr L;
     d_HazardClass := hazard_class L;
     d_WeightKg := weight_kg L;
     d_Status := status L;
     d_OrigCustNo := cust_no |}.

Definition new_OrdLine (L : Locals) (ord_no device_id : Z) : OrdLine :=
  {| ol_OrdNo := ord_no;
     ol_LineNo := 1;
     ol_DeviceID := device_id;
     ol_ActionCode := "Recycle";
     ol_Qty := 1;
     ol_Notes := notes L |}.

(** Step 1 of the [try] block: reuse the customer by email or create it. *)
Definition resolve_customer (L : Locals) (cur : nat) : M Z :=
  existing_cust_no <-
    (if PyStr.is_empty (customer_email L) then ret None
     else execute_query cur (select_CustNo (customer_email L))) ;;
  match existing_cust_no with
  | Some cust_no => ret cust_no
  | None =>
      cust_no_to_use <- nextval cur seq_customer ;;
      execute_insert cur
        (fun _ => insert_Customer (new_Customer L cust_no_to_use)) ;;;
      ret cust_no_to_use
  end.

(** The [try] block of [register_device_with_order]. *)
Definition intake_transaction (L : Locals) (employee_username : string)
    (conn cur : nat) : M IntakeResult :=
  row <- execute_query cur (select_EmpNo employee_username) ;;
  match row with
  | None => raise (NoEmployeeFound employee_username)
  | Some emp_no =>
      cust_no_to_use <- resolve_customer L cur ;;
      ord_no <- nextval cur seq_order ;;
      execute_insert cur
        (fun today =>
           insert_RecyclingOrder
             (new_RecyclingOrder L ord_no cust_no_to_use emp_no today)) ;;;
      device_id <- nextval cur seq_device ;;
      qr_filename <- _generate_qr_for_mac (mac_addr L) (PyStr.str_of_Z device_id) ;;
      execute_insert cur
        (fun _ => insert_Device (new_Device L device_id qr_filename cust_no_to_use)) ;;;
      execute_insert cur
        (fun _ => insert_OrdLine (new_OrdLine L ord_no device_id)) ;;;
      commit conn ;;;
      ret {| out_device_id := device_id;
             out_qr_filename := qr_filename;
             out_mac_addr := mac_addr L |}
  end.

(** [register_device_with_order(form_data, employee_username)] *)
Definition register_device_with_order (form_data : gmap string string)
    (employee_username : string) : M IntakeResult :=
  L <- lift (normalize_form form_data) ;;
  conn <- get_connection ;;
  cur <- cursor conn ;;
  try_finally
    (try_except
       (intake_transaction L employee_username conn cur)
       (fun e =>
          rollback conn ;;;
          print "Error in register_device_with_order:" e ;;;
          raise e))
    (cursor_close cur ;;; close conn).

(** ** A small store and some forms to run the code on *)

Definition sample_tables : Tables :=
  {| Employee_t := [ {| e_EmpNo := 7; e_EmpEmail := "tech01" |} ];
     Customer_t := []; RecyclingOrder_t := []; Device_t := []; OrdLine_t := [] |}.

Definition world0 : World :=
  {| db := sample_tables;
     next_customer := 100; next_order := 500; next_device := 1000;
     sysdate := {| year := 2024; month := 3; day := 9 |};
     sessions := ∅; next_conn := 0%nat; qr_codes := ∅;
     BASE_TRACK_URL := "http://localhost:5000/track/";
     faults := []; console := [] |}.

(** A store on which the connection succeeds and the next call fails. *)
Definition world_query_fails : World :=
  set_faults [false; true] world0.

Definition form_dipina : gmap string string :=
  list_to_map [("mac_address", "9a:4b:7c:12:ff:09"); ("device_type", "Laptop");
               ("customer_name", "DIPINA")].

Definition form_blank : gmap string string :=
  list_to_map [("mac_address", "9a:4b:7c:12:ff:09"); ("customer_name", "James Smith");
               ("dropoff_site", "   "); ("hazard_class", ""); ("status", " ")].

Definition form_first : gmap string string :=
  list_to_map [("mac_address", "9a:4b:7c:12:ff:09"); ("device_type", "Laptop");
               ("customer_name", "James Smith"); ("customer_email", "james@example.org");
               ("weight_kg", "2.5")].

Definition form_second : gmap string string :=
  list_to_map [("mac_address", "00:1b:44:11:3a:b7"); ("device_type", "Phone");
               ("customer_name", "J. Smith"); ("customer_email", " james@example.org ")].

Definition form_anonymous : gmap string string :=
  list_to_map [("mac_address", "9a:4b:7c:12:ff:09"); ("customer_name", "James Smith");
               ("customer_email", "  ")].

Definition form_no_mac : gmap string string :=
  list_to_map [("device_type", "Laptop"); ("customer_name", "James Smith")].

(* ===================================================================== *)
(** * The vocabulary of the properties *)
(* ===================================================================== *)

(** The world after one external call. *)
Definition tick (w : World) : World := set_faults (tl (faults w)) w.

(** The world once [get_connection] has returned. *)
Definition connected (w : World) : World :=
  set_next_conn (S (next_conn w))
    (set_sessions (<[next_conn w := db w]> (sessions w)) (tick w)).

Definition existing_customer (L : Locals) (T : Tables) : option Z :=
  if PyStr.is_empty (customer_email L) then None
  else select_CustNo (customer_email L) T.

(** The key of the customer that an intake uses. *)
Definition customer_key (L : Locals) (w : World) : Z :=
  default (next_customer w) (existing_customer L (db w)).

(** The tables that a successful intake commits. *)
Definition tables_after (L : Locals) (emp_no : Z) (w : World) : Tables :=
  let cust_no := customer_key L w in
  let qr_filename := PyStr.str_of_Z (next_device w) ++ ".png" in
  insert_OrdLine (new_OrdLine L (next_order w) (next_device w))
    (insert_Device (new_Device L (next_device w) qr_filename cust_no)
       (insert_RecyclingOrder
          (new_RecyclingOrder L (next_order w) cust_no emp_no (sysdate w))
          (match existing_customer L (db w) with
           | Some _ => db w
           | None => insert_Customer (new_Customer L cust_no) (db w)
           end))).

(** A relation between the world before and the world after that every run
    of [m] satisfies, whatever its outcome. *)
Definition preserves {A} (R : World -> World -> Prop) (m : M A) : Prop :=
  forall w o w', m w = (o, w') -> R w w'.

(** The same, for the runs that return. *)
Definition on_return {A} (R : World -> World -> Prop) (m : M A) : Prop :=
  forall w a w', m w = (Returns a, w') -> R w w'.

(** The same, for the runs that raise. *)
Definition on_raise {A} (R : World -> World -> Prop) (m : M A) : Prop :=
  forall w e w', m w = (Raises e, w') -> R w w'.

Definition never_raises {A} (m : M A) : Prop :=
  forall w e w', m w <> (Raises e, w').

Definition never_returns {A} (m : M A) : Prop :=
  forall w a w', m w <> (Returns a, w').

Definition same_db (w w' : World) : Prop := db w' = db w.

(** From [w] to [w'] the schedule has only lost entries that announce no
    failure. *)
Definition quiet (w w' : World) : Prop :=
  exists pre, faults w = (pre ++ faults w')%list /\ Forall (fun b => b = false) pre.

(** Only the session of [c] may differ between [w] and [w']. *)
Definition only_session (c : nat) (w w' : World) : Prop :=
  forall c', c' <> c -> sessions w' !! c' = sessions w !! c'.

(** No failure is scheduled. *)
Definition no_faults (w : World) : Prop := forallb negb (faults w) = true.

(** [m] returns from every world that satisfies [I], in a world that
    satisfies [I] again. *)
Definition succeeds {A} (I : World -> Prop) (m : M A) : Prop :=
  forall w, I w -> exists a w', m w = (Returns a, w') /\ I w'.

(** No failure is scheduled and the connection [c] is open. *)
Definition ready (c : nat) (w : World) : Prop :=
  no_faults w /\ is_Some (sessions w !! c).

Definition has_email (email : string) (c : Customer) : bool :=
  sql_eq (c_CustEmail c) email.

(** The Customer rows that [WHERE CustEmail = :email] selects. *)
Definition customers_with_email (email : string) (T : Tables) : list Customer :=
  List.filter (has_email email) (Customer_t T).

Definition stored_names (w : World) : list (string * string) :=
  map (fun c => (c_CustFirstName c, c_CustLastName c)) (Customer_t (db w)).

Definition stored_macs (w : World) : list string :=
  map d_IotMacAddr (Device_t (db w)).

(** The value that an intake returned. *)
Definition result_of (o : outcome IntakeResult) : IntakeResult :=
  match o with
  | Returns r => r
  | Raises _ => {| out_device_id := 0; out_qr_filename := ""; out_mac_addr := "" |}
  end.

(* ===================================================================== *)
(** * app.py *)
(* ===================================================================== *)

(** The routes of the Flask application.  A route takes what Flask hands to
    it (the request, the session of the client, the converted part of the
    URL) and answers with a response; the routes that write the session
    return the session they leave.  [render_template], [redirect] and
    [url_for] are the constructors of the response: the templates are not
    part of the code. *)

Inductive Method : Type := GET | POST.

Record Request := {
  method : Method;
  form : gmap string string
}.

(** An entry of [EMPLOYEE_USERS]. *)
Record User := {
  password : string;
  full_name : string;
  role : string
}.

Definition EMPLOYEE_USERS : gmap string User :=
  <["tech01" := {| password := "Pass123!";
                   full_name := "Lab Technician 01";
                   role := "Tech" |}]>
  (<["admin01" := {| password := "Admin123!";
                     full_name := "Recycling Center Admin";
                     role := "Admin" |}]> ∅).

(** [url_for(endpoint, ...)] *)
Inductive Endpoint : Type :=
| url_employee_login
| url_employee_dashboard
| url_employee_qr_page (device_id : Z).

Inductive Response : Type :=
| track_html (device_id : string) (device : option DeviceView)
    (error : option string) (sample_ids : list string)
| employee_login_html (error : option string)
| employee_dashboard_html (full_name role : string)
| employee_intake_html (message : option (string * string))
| employee_qr_html (device_id : Z) (mac qr_filename track_url : string)
| redirect (target : Endpoint)
| plain_text (body : string).

(** [track_device()], the route "/" *)
Definition track_device (request : Request) : M Response :=
  match method request with
  | POST =>
      let device_id := PyStr.strip (form_get (form request) "device_id" "") in
      device <-
        (if PyStr.is_empty device_id then ret None
         else get_device_by_mac (Some device_id)) ;;
      let error :=
        match device with
        | None =>
            Some ("Device ID not found. Please verify your MAC address "
                  ++ "or contact the recycling center.")
        | Some _ => None
        end in
      ret (track_html device_id device error [])
  | GET => ret (track_html "" None None [])
  end.

(** [track_device_direct(device_id)], the route "/track/<device_id>" *)
Definition track_device_direct (device_id : string) : M Response :=
  device <-
    (if PyStr.is_empty device_id then ret None
     else get_device_by_mac (Some device_id)) ;;
  let error :=
    match device with
    | None => Some "Device ID not found. Please contact the recycling center."
    | Some _ => None
    end in
  ret (track_html device_id device error []).

(** [employee_login()].  An entry of [EMPLOYEE_USERS] has its three fields,
    so that [user["password"]] and [user.get("role", "Tech")] read them. *)
Definition employee_login (request : Request) (session : gmap string string)
  : Response * gmap string string :=
  match method request with
  | POST =>
      let username := PyStr.strip (form_get (form request) "username" "") in
      let password' := PyStr.strip (form_get (form request) "password" "") in
      match EMPLOYEE_USERS !! username with
      | Some user =>
          if String.eqb (password user) password'
          then (redirect url_employee_dashboard,
                <["employee_role" := role user]>
                  (<["employee_username" := username]> session))
          else (employee_login_html
                  (Some "Invalid credentials. Please try again."), session)
      | None =>
          (employee_login_html
             (Some "Invalid credentials. Please try again."), session)
      end
  | GET => (employee_login_html None, session)
  end.

(** [employee_logout()] *)
Definition employee_logout (session : gmap string string)
  : Response * gmap string string :=
  (redirect url_employee_login, ∅).

(** [employee_dashboard()].  [EMPLOYEE_USERS.get(username, {})] followed by
    the two [get] with a default is the case analysis on the entry. *)
Definition employee_dashboard (session : gmap string string) : Response :=
  match session !! "employee_username" with
  | None => redirect url_employee_login
  | Some username =>
      if PyStr.is_empty username then redirect url_employee_login
      else
        match EMPLOYEE_USERS !! username with
        | Some user => employee_dashboard_html (full_name user) (role user)
        | None => employee_dashboard_html username "Employee"
        end
  end.

(** [employee_intake()].  The test ["employee_username" not in session] and
    the later [session.get("employee_username")] read the same entry. *)
Definition employee_intake (request : Request) (session : gmap string string)
  : M (Response * gmap string string) :=
  match session !! "employee_username" with
  | None => ret (redirect url_employee_login, session)
  | Some employee_username =>
      match method request with
      | GET => ret (employee_intake_html None, session)
      | POST =>
          try_except
            (result <- register_device_with_order (form request) employee_username ;;
             fun w =>
               let track_url := BASE_TRACK_URL w ++ out_mac_addr result in
               (Returns
                  (redirect (url_employee_qr_page (out_device_id result)),
                   <["last_track_url" := track_url]>
                     (<["last_mac" := out_mac_addr result]> session)),
                w))
            (fun e =>
               print "Error during device intake:" e ;;;
               ret (employee_intake_html
                      (Some ("error",
                             "There was a problem saving this device. "
                             ++ "Please try again or contact the system administrator.")),
                    session))
      end
  end.

(** [employee_qr_page(device_id)] *)
Definition employee_qr_page (device_id : Z) (session : gmap string string)
  : Response :=
  match session !! "last_mac", session !! "last_track_url" with
  | Some mac, Some track_url =>
      if PyStr.is_empty mac || PyStr.is_empty track_url
      then plain_text "No QR data found. Please record intake again."
      else employee_qr_html device_id mac
             (PyStr.str_of_Z device_id ++ ".png") track_url
  | _, _ => plain_text "No QR data found. Please record intake again."
  end.

(** ** Invariants of the store *)

(** No sequence has gone back. *)
Definition seq_le (w w' : World) : Prop :=
  next_customer w <= next_customer w' /\
  next_order w <= next_order w' /\
  next_device w <= next_device w'.

(** The committed tables, the sequences and the QR folder are the same. *)
Definition untouched (w w' : World) : Prop :=
  db w' = db w /\
  next_customer w' = next_customer w /\
  next_order w' = next_order w /\
  next_device w' = next_device w /\
  qr_codes w' = qr_codes w.

(** The surrogate keys of the three tables that the intake fills are
    pairwise distinct and below the next value of their sequence. *)
Definition keys_ok (w : World) : Prop :=
  NoDup (map c_CustNo (Customer_t (db w))) /\
  NoDup (map r_OrdNo (RecyclingOrder_t (db w))) /\
  NoDup (map d_DeviceID (Device_t (db w))) /\
  Forall (fun k => k < next_customer w) (map c_CustNo (Customer_t (db w))) /\
  Forall (fun k => k < next_order w) (map r_OrdNo (RecyclingOrder_t (db w))) /\
  Forall (fun k => k < next_device w) (map d_DeviceID (Device_t (db w))).

(** Every reference of a row names a row that exists: an order line its
    order and its device, an order its customer and its employee, a device
    the customer it came from. *)
Definition referential (T : Tables) : Prop :=
  Forall (fun ol => In (ol_OrdNo ol) (map r_OrdNo (RecyclingOrder_t T)) /\
                    In (ol_DeviceID ol) (map d_DeviceID (Device_t T)))
         (OrdLine_t T) /\
  Forall (fun r => In (r_CustNo r) (map c_CustNo (Customer_t T)) /\
                   In (r_EmpNo r) (map e_EmpNo (Employee_t T)))
         (RecyclingOrder_t T) /\
  Forall (fun d => In (d_OrigCustNo d) (map c_CustNo (Customer_t T)))
         (Device_t T).

(** Every device is on an order line, no device is on two, and no two lines
    have the same order and line number. *)
Definition lines_ok (T : Tables) : Prop :=
  NoDup (map ol_DeviceID (OrdLine_t T)) /\
  NoDup (map (fun ol => (ol_OrdNo ol, ol_LineNo ol)) (OrdLine_t T)) /\
  Forall (fun d => In (d_DeviceID d) (map ol_DeviceID (OrdLine_t T)))
         (Device_t T).

(** At most one Customer row has a given email, the empty one apart. *)
Definition one_per_email (T : Tables) : Prop :=
  forall email, email <> "" ->
    (length (customers_with_email email T) <= 1)%nat.

(** The view that a lookup returned. *)
Definition result_view (o : outcome (option DeviceView)) : option DeviceView :=
  match o with
  | Returns v => v
  | Raises _ => None
  end.


(** A store that holds one customer, one order, one device and its line. *)
Definition world1 : World :=
  snd (register_device_with_order form_first "tech01" world0).

Definition form_full : gmap string string :=
  list_to_map [("mac_address", " 00:1b:44:11:3a:b7 "); ("device_type", "Phone");
               ("make", "Nokia"); ("model", "3310"); ("serial_no", "SN-1");
               ("customer_name", "  Ada   Maria  Lovelace "); ("customer_email", "");
               ("dropoff_site", "North Depot"); ("status", "Received");
               ("notes", "cracked screen"); ("hazard_class", "Low");
               ("weight_kg", "0.25")].

(** The QR folder is the same. *)
Definition same_qr (w w' : World) : Prop := qr_codes w' = qr_codes w.

(** What the routes keep true of a session: the data of the QR page are
    there only with a logged-in employee. *)
Definition session_ok (session : gmap string string) : Prop :=
  is_Some (session !! "last_mac") -> is_Some (session !! "employee_username").

Definition form_nameless : gmap string string :=
  list_to_map [("mac_address", "9a:4b:7c:12:ff:09"); ("customer_name", "   ")].

Definition request_first : Request := {| method := POST; form := form_first |}.

Definition session_tech01 : gmap string string :=
  <["employee_role" := "Tech"]> (<["employee_username" := "tech01"]> ∅).

Definition request_no_mac : Request := {| method := POST; form := form_no_mac |}.

(* ===================================================================== *)
(** * Reasoning about runs *)
(* ===================================================================== *)

Section Runs.

Context {A B : Type}.

Lemma bind_returns (m : M A) (k : A -> M B) w b w' :
  bind m k w = (Returns b, w') ->
  exists a w1, m w = (Returns a, w1) /\ k a w1 = (Returns b, w').
Proof.
  unfold bind. destruct (m w) as [[a|e] w1]; intros H.
  - eauto.
  - discriminate.
Qed.

Lemma bind_raises (m : M A) (k : A -> M B) w e w' :
  bind m k w = (Raises e, w') ->
  m w = (Raises e, w') \/
  exists a w1, m w = (Returns a, w1) /\ k a w1 = (Raises e, w').
Proof.
  unfold bind. destruct (m w) as [[a|e0] w1]; intros H.
  - right. eauto.
  - left. inversion H; subst. reflexivity.
Qed.

End Runs.

Section Preorder.

Context (R : relation World) `{!PreOrder R}.

Lemma preserves_ret {A} (a : A) : preserves R (ret a).
Proof. intros w o w' H. inversion H. reflexivity. Qed.

Lemma preserves_raise {A} (e : exn) : preserves R (@raise A e).
Proof. intros w o w' H. inversion H. reflexivity. Qed.

Lemma preserves_lift {A} (o : outcome A) : preserves R (lift o).
Proof. intros w o' w' H. inversion H. reflexivity. Qed.

Lemma preserves_bind {A B} (m : M A) (k : A -> M B) :
  preserves R m -> (forall a, preserves R (k a)) -> preserves R (bind m k).
Proof.
  intros Hm Hk w o w'. unfold bind.
  destruct (m w) as [[a|e] w1] eqn:E; intros H.
  - transitivity w1; [eapply Hm, E | eapply Hk, H].
  - inversion H; subst. eapply Hm, E.
Qed.

Lemma preserves_try_except {A} (body : M A) (handler : exn -> M A) :
  preserves R body -> (forall e, preserves R (handler e)) ->
  preserves R (try_except body handler).
Proof.
  intros Hb Hh w o w'. unfold try_except.
  destruct (body w) as [[a|e] w1] eqn:E; intros H.
  - inversion H; subst. eapply Hb, E.
  - transitivity w1; [eapply Hb, E | eapply Hh, H].
Qed.

Lemma preserves_try_finally {A} (body : M A) (fin : M unit) :
  preserves R body -> preserves R fin -> preserves R (try_finally body fin).
Proof.
  intros Hb Hf w o w'. unfold try_finally.
  destruct (body w) as [o1 w1] eqn:E.
  destruct (fin w1) as [[[]|e] w2] eqn:F; intros H; inversion H; subst;
    (transitivity w1; [eapply Hb, E | eapply Hf, F]).
Qed.

Lemma on_return_ret {A} (a : A) : on_return R (ret a).
Proof. intros w o w' H. inversion H. reflexivity. Qed.

Lemma on_return_raise {A} (e : exn) : on_return R (@raise A e).
Proof. intros w o w' H. inversion H. Qed.

Lemma on_return_bind {A B} (m : M A) (k : A -> M B) :
  on_return R m -> (forall a, on_return R (k a)) -> on_return R (bind m k).
Proof.
  intros Hm Hk w b w' H.
  apply bind_returns in H as (a & w1 & H1 & H2).
  transitivity w1; [eapply Hm, H1 | eapply Hk, H2].
Qed.

Lemma preserves_on_return {A} (m : M A) : preserves R m -> on_return R m.
Proof. intros H w a w' E. eapply H, E. Qed.

Lemma on_raise_bind {A B} (m : M A) (k : A -> M B) :
  preserves R m -> (forall a, on_raise R (k a)) -> on_raise R (bind m k).
Proof.
  intros Hm Hk w e w' H.
  apply bind_raises in H as [H | (a & w1 & H1 & H2)].
  - eapply Hm, H.
  - transitivity w1; [eapply Hm, H1 | eapply Hk, H2].
Qed.

Lemma on_raise_try_except {A} (body : M A) (handler : exn -> M A) :
  on_raise R body -> (forall e, preserves R (handler e)) ->
  on_raise R (try_except body handler).
Proof.
  intros Hb Hh w e w'. unfold try_except.
  destruct (body w) as [[a|e0] w1] eqn:E; intros H.
  - discriminate.
  - transitivity w1; [eapply Hb, E | eapply Hh, H].
Qed.

Lemma on_raise_try_finally {A} (body : M A) (fin : M unit) :
  on_raise R body -> preserves R fin -> never_raises fin ->
  on_raise R (try_finally body fin).
Proof.
  intros Hb Hf Hn w e w'. unfold try_finally.
  destruct (body w) as [[a|e0] w1] eqn:E;
    destruct (fin w1) as [[u|e1] w2] eqn:F; intros H;
    try discriminate; try (exfalso; eapply Hn, F).
  inversion H; subst.
  transitivity w1; [eapply Hb, E | eapply Hf, F].
Qed.

End Preorder.

(** ** What a primitive that returned has done *)

Lemma external_returns e w u w1 :
  external e w = (Returns u, w1) ->
  hd false (faults w) = false /\ w1 = tick w.
Proof.
  unfold external. destruct (hd false (faults w)); intros H; inversion H; auto.
Qed.

Lemma get_connection_returns w c w1 :
  get_connection w = (Returns c, w1) ->
  hd false (faults w) = false /\ c = next_conn w /\
  w1 = set_next_conn (S (next_conn w))
         (set_sessions (<[next_conn w := db w]> (sessions w)) (tick w)).
Proof.
  unfold get_connection. intros H.
  apply bind_returns in H as (u & w0 & H0 & H).
  apply external_returns in H0 as [Hq ->]. inversion H; auto.
Qed.

Lemma cursor_returns conn w cur w1 :
  cursor conn w = (Returns cur, w1) ->
  cur = conn /\ w1 = w /\ is_Some (sessions w !! conn).
Proof.
  unfold cursor. destruct (sessions w !! conn) eqn:E; intros H; inversion H; eauto.
Qed.

Lemma execute_query_returns {A} cur (q : Tables -> A) w a w1 :
  execute_query cur q w = (Returns a, w1) ->
  hd false (faults w) = false /\
  exists T, sessions w !! cur = Some T /\ a = q T /\ w1 = tick w.
Proof.
  unfold execute_query. intros H.
  apply bind_returns in H as (u & w0 & H0 & H).
  apply external_returns in H0 as [Hq ->]. cbn in H.
  destruct (sessions w !! cur) eqn:E; inversion H; eauto.
Qed.

Lemma execute_insert_returns cur f w u w1 :
  execute_insert cur f w = (Returns u, w1) ->
  hd false (faults w) = false /\
  exists T, sessions w !! cur = Some T /\
    w1 = set_sessions (<[cur := f (sysdate w) T]> (sessions w)) (tick w).
Proof.
  unfold execute_insert. intros H.
  apply bind_returns in H as (u' & w0 & H0 & H).
  apply external_returns in H0 as [Hq ->]. cbn in H.
  destruct (sessions w !! cur) eqn:E; inversion H; eauto.
Qed.

Lemma nextval_returns cur s w n w1 :
  nextval cur s w = (Returns n, w1) ->
  hd false (faults w) = false /\
  n = seq_value s w /\ w1 = seq_advance s (tick w).
Proof.
  unfold nextval. intros H.
  apply bind_returns in H as (u' & w0 & H0 & H).
  apply external_returns in H0 as [Hq ->]. cbn in H.
  destruct (sessions w !! cur) eqn:E; inversion H; subst.
  destruct s; auto.
Qed.

Lemma commit_returns conn w u w1 :
  commit conn w = (Returns u, w1) ->
  hd false (faults w) = false /\
  exists T, sessions w !! conn = Some T /\ w1 = set_db T (tick w).
Proof.
  unfold commit. intros H.
  apply bind_returns in H as (u' & w0 & H0 & H).
  apply external_returns in H0 as [Hq ->]. cbn in H.
  destruct (sessions w !! conn) eqn:E; inversion H; eauto.
Qed.

Lemma _generate_qr_for_mac_returns mac id w f w1 :
  _generate_qr_for_mac mac id w = (Returns f, w1) ->
  hd false (faults w) = false /\ f = id ++ ".png" /\
  w1 = set_qr_codes (<[id ++ ".png" := BASE_TRACK_URL w ++ mac]> (qr_codes w))
         (tick w).
Proof.
  unfold _generate_qr_for_mac. intros H.
  apply bind_returns in H as (u' & w0 & H0 & H).
  apply external_returns in H0 as [Hq ->]. inversion H; auto.
Qed.

Ltac step H :=
  let a := fresh "a" in
  let w := fresh "w" in
  let S := fresh "S" in
  apply bind_returns in H as (a & w & S & H);
  first
    [ apply execute_query_returns in S as (_ & ? & ? & -> & ->)
    | apply execute_insert_returns in S as (_ & ? & ? & ->)
    | apply nextval_returns in S as (_ & -> & ->)
    | apply commit_returns in S as (_ & ? & ? & ->)
    | apply _generate_qr_for_mac_returns in S as (_ & -> & ->)
    | apply get_connection_returns in S as (_ & -> & ->)
    | apply cursor_returns in S as (-> & -> & _) ];
  cbn in *; simplify_map_eq.

Ltac finish H := unfold ret in H; inversion H; subst; clear H; cbn.

Lemma resolve_customer_returns L c w T k w1 :
  sessions w !! c = Some T ->
  resolve_customer L c w = (Returns k, w1) ->
  k = default (next_customer w) (existing_customer L T) /\
  sessions w1 !! c =
    Some (match existing_customer L T with
          | Some _ => T
          | None => insert_Customer (new_Customer L (next_customer w)) T
          end) /\
  next_customer w1 = match existing_customer L T with
                     | Some _ => next_customer w
                     | None => next_customer w + 1
                     end /\
  db w1 = db w /\ next_order w1 = next_order w /\
  next_device w1 = next_device w /\ sysdate w1 = sysdate w /\
  BASE_TRACK_URL w1 = BASE_TRACK_URL w /\ next_conn w1 = next_conn w.
Proof.
  intros HT H. unfold resolve_customer, existing_customer in *.
  destruct (PyStr.is_empty (customer_email L)).
  - apply bind_returns in H as (a & w0 & S & H). finish S.
    repeat step H. finish H. rewrite lookup_insert_eq. auto 10.
  - step H. destruct (select_CustNo (customer_email L) T) as [k0|].
    + finish H. auto 10.
    + repeat step H. finish H. rewrite lookup_insert_eq. auto 10.
Qed.

Lemma intake_transaction_returns L user c w r w' :
  sessions w !! c = Some (db w) ->
  intake_transaction L user c c w = (Returns r, w') ->
  exists emp_no,
    select_EmpNo user (db w) = Some emp_no /\
    r = {| out_device_id := next_device w;
           out_qr_filename := PyStr.str_of_Z (next_device w) ++ ".png";
           out_mac_addr := mac_addr L |} /\
    db w' = tables_after L emp_no w /\
    next_customer w' = match existing_customer L (db w) with
                       | Some _ => next_customer w
                       | None => next_customer w + 1
                       end /\
    next_order w' = next_order w + 1 /\
    next_device w' = next_device w + 1 /\
    sysdate w' = sysdate w /\
    BASE_TRACK_URL w' = BASE_TRACK_URL w /\
    next_conn w' = next_conn w.
Proof.
  intros HT H. unfold intake_transaction in H.
  step H.
  destruct (select_EmpNo user (db w)) as [emp_no|]; [|discriminate].
  exists emp_no. split; [reflexivity|].
  apply bind_returns in H as (k & w1 & S & H).
  eapply resolve_customer_returns in S as (Hk & Hs & Hc & Hdb & Ho & Hd & Hy & Hb & Hn);
    [|cbn; exact HT].
  repeat step H. finish H.
  unfold tables_after, customer_key.
  rewrite Hc, Ho, Hd, Hy, Hb, Hn.
  destruct (existing_customer L (db w)); cbn in *; subst; auto 10.
Qed.

Lemma try_finally_returns {A} (body : M A) (fin : M unit) w a w' :
  try_finally body fin w = (Returns a, w') ->
  exists w1 u, body w = (Returns a, w1) /\ fin w1 = (Returns u, w').
Proof.
  unfold try_finally. destruct (body w) as [o w1].
  destruct (fin w1) as [[u|e] w2] eqn:F; intros H; inversion H; subst; eauto.
Qed.

Lemma try_except_returns {A} (body : M A) (handler : exn -> M A) w a w' :
  (forall e w1 a1 w2, handler e w1 <> (Returns a1, w2)) ->
  try_except body handler w = (Returns a, w') ->
  body w = (Returns a, w').
Proof.
  unfold try_except. intros Hh. destruct (body w) as [[a0|e] w1]; intros H.
  - exact H.
  - exfalso. eapply Hh, H.
Qed.

(** The handler of the intake always re-raises. *)
Lemma intake_handler_raises conn e w a w' :
  (rollback conn ;;;
   print "Error in register_device_with_order:" e ;;;
   raise e) w <> (Returns (a : IntakeResult), w').
Proof.
  intros H.
  apply bind_returns in H as (u1 & w1 & _ & H).
  apply bind_returns in H as (u2 & w2 & _ & H).
  discriminate.
Qed.

Lemma close_returns conn w u w1 :
  close conn w = (Returns u, w1) ->
  w1 = set_sessions (delete conn (sessions w)) w.
Proof. unfold close. intros H. inversion H; auto. Qed.

Lemma lift_returns {A} (o : outcome A) w a w1 :
  lift o w = (Returns a, w1) -> o = Returns a /\ w1 = w.
Proof. unfold lift. intros H. inversion H; auto. Qed.

(** What an intake that returned has done. *)
Lemma register_device_with_order_returns form_data user w r w' :
  register_device_with_order form_data user w = (Returns r, w') ->
  exists L emp_no,
    normalize_form form_data = Returns L /\
    select_EmpNo user (db w) = Some emp_no /\
    r = {| out_device_id := next_device w;
           out_qr_filename := PyStr.str_of_Z (next_device w) ++ ".png";
           out_mac_addr := mac_addr L |} /\
    db w' = tables_after L emp_no w /\
    next_customer w' = match existing_customer L (db w) with
                       | Some _ => next_customer w
                       | None => next_customer w + 1
                       end /\
    next_order w' = next_order w + 1 /\
    next_device w' = next_device w + 1 /\
    sysdate w' = sysdate w /\
    BASE_TRACK_URL w' = BASE_TRACK_URL w.
Proof.
  intros H. unfold register_device_with_order in H.
  apply bind_returns in H as (L & w0 & S & H).
  apply lift_returns in S as [HL ->].
  step H. step H.
  apply try_finally_returns in H as (w1 & u & H & F).
  apply try_except_returns in H; [|intros; apply intake_handler_raises].
  apply intake_transaction_returns in H; [|cbn; apply lookup_insert_eq].
  destruct H as (emp_no & He & Hr & Hdb & Hc & Ho & Hd & Hy & Hb & Hn).
  apply bind_returns in F as (u1 & w2 & F1 & F).
  inversion F1; subst w2. apply close_returns in F as ->.
  exists L, emp_no. cbn in *. auto 12.
Qed.

(** ** The committed tables *)

#[local] Instance same_db_preorder : PreOrder same_db.
Proof. split; unfold same_db; [intros w | intros w1 w2 w3]; congruence. Qed.

Ltac run_prim :=
  intros ? ? ?;
  unfold get_connection, cursor, execute_query, execute_insert, nextval,
    rollback, cursor_close, close, print, _generate_qr_for_mac, commit,
    external, bind, ret, raise, lift;
  cbn; repeat case_match; intros;
  repeat match goal with
         | H : (_, _) = (_, _) |- _ => inversion H; clear H
         end; subst; cbn in *.

Create HintDb frame.

Lemma get_connection_same_db : preserves same_db get_connection.
Proof. run_prim; reflexivity. Qed.
Lemma cursor_same_db conn : preserves same_db (cursor conn).
Proof. run_prim; reflexivity. Qed.
Lemma execute_query_same_db {A} cur (q : Tables -> A) :
  preserves same_db (execute_query cur q).
Proof. run_prim; reflexivity. Qed.
Lemma execute_insert_same_db cur f : preserves same_db (execute_insert cur f).
Proof. run_prim; reflexivity. Qed.
Lemma nextval_same_db cur s : preserves same_db (nextval cur s).
Proof. run_prim; reflexivity. Qed.
Lemma rollback_same_db conn : preserves same_db (rollback conn).
Proof. run_prim; reflexivity. Qed.
Lemma cursor_close_same_db cur : preserves same_db (cursor_close cur).
Proof. run_prim; reflexivity. Qed.
Lemma close_same_db conn : preserves same_db (close conn).
Proof. run_prim; reflexivity. Qed.
Lemma print_same_db msg e : preserves same_db (print msg e).
Proof. run_prim; reflexivity. Qed.
Lemma _generate_qr_for_mac_same_db mac id :
  preserves same_db (_generate_qr_for_mac mac id).
Proof. run_prim; reflexivity. Qed.

(** [commit] is the one call that changes the committed tables, and it
    changes them only when it returns. *)
Lemma commit_on_raise conn : on_raise same_db (commit conn).
Proof. run_prim; reflexivity. Qed.

#[local] Hint Resolve get_connection_same_db cursor_same_db execute_query_same_db
  execute_insert_same_db nextval_same_db rollback_same_db cursor_close_same_db
  close_same_db print_same_db _generate_qr_for_mac_same_db : frame.

Ltac preorder :=
  lazymatch goal with
  | |- PreOrder _ => typeclasses eauto
  | _ => idtac
  end.

Ltac frame :=
  repeat first
    [ solve [auto with frame]
    | apply preserves_ret; preorder
    | apply preserves_raise; preorder
    | apply preserves_lift; preorder
    | apply preserves_bind; preorder
    | match goal with |- forall _, _ => intro end ].

Lemma resolve_customer_same_db L cur : preserves same_db (resolve_customer L cur).
Proof.
  unfold resolve_customer. apply preserves_bind; preorder.
  - destruct (PyStr.is_empty (customer_email L)); frame.
  - intros [k|]; frame.
Qed.

Lemma preserves_on_raise {A} R (m : M A) : preserves R m -> on_raise R m.
Proof. intros H w e w' E. eapply H, E. Qed.

(** An intake transaction that raises has not touched the committed tables. *)
Lemma intake_transaction_on_raise L user conn cur :
  on_raise same_db (intake_transaction L user conn cur).
Proof.
  unfold intake_transaction.
  apply on_raise_bind; preorder; [auto with frame|].
  intros [emp_no|]; [|apply preserves_on_raise; frame].
  apply on_raise_bind; preorder; [apply resolve_customer_same_db |].
  intros cust_no.
  repeat (apply on_raise_bind; preorder; [solve [auto with frame] | intro]).
  intros w e w' H.
  apply bind_raises in H as [H | (u & w1 & H1 & H2)].
  - eapply commit_on_raise, H.
  - discriminate.
Qed.

Lemma finally_never_raises cur conn :
  never_raises (cursor_close cur ;;; close conn).
Proof. intros w e w' H. discriminate. Qed.

(** Atomicity: an intake that raises leaves the committed tables as they
    were. *)
Lemma register_device_with_order_on_raise form_data user :
  on_raise same_db (register_device_with_order form_data user).
Proof.
  unfold register_device_with_order.
  apply on_raise_bind; preorder; [frame |]. intros L.
  apply on_raise_bind; preorder; [frame |]. intros conn.
  apply on_raise_bind; preorder; [frame |]. intros cur.
  apply on_raise_try_finally; preorder;
    [ | frame | apply finally_never_raises].
  apply on_raise_try_except; preorder; [apply intake_transaction_on_raise |].
  intros e. frame.
Qed.

Lemma try_except_returns_inv {A} (body : M A) (handler : exn -> M A) w a w' :
  try_except body handler w = (Returns a, w') ->
  body w = (Returns a, w') \/
  exists e w1, body w = (Raises e, w1) /\ handler e w1 = (Returns a, w').
Proof.
  unfold try_except. destruct (body w) as [[a0|e] w1]; intros H; eauto.
Qed.

Lemma on_return_try_finally {A} (R : relation World) `{!PreOrder R}
    (body : M A) (fin : M unit) :
  on_return R body -> on_return R fin -> on_return R (try_finally body fin).
Proof.
  intros Hb Hf w a w' H.
  apply try_finally_returns in H as (w1 & u & H1 & H2).
  transitivity w1; [eapply Hb, H1 | eapply Hf, H2].
Qed.

Lemma on_return_try_except {A} (R : relation World) `{!PreOrder R}
    (body : M A) (handler : exn -> M A) :
  on_return R body -> (forall e, never_returns (handler e)) ->
  on_return R (try_except body handler).
Proof.
  intros Hb Hh w a w' H.
  apply try_except_returns_inv in H as [H | (e & w1 & _ & H)].
  - eapply Hb, H.
  - exfalso. eapply Hh, H.
Qed.

(** ** The fault schedule *)

#[local] Instance quiet_preorder : PreOrder quiet.
Proof.
  split.
  - intros w. exists []. split; [reflexivity | constructor].
  - intros w1 w2 w3 (p1 & E1 & F1) (p2 & E2 & F2).
    exists (p1 ++ p2)%list. split.
    + rewrite E1, E2. apply app_assoc.
    + apply Forall_app. split; assumption.
Qed.

Lemma quiet_same w w' : faults w' = faults w -> quiet w w'.
Proof. intros E. exists []. rewrite E. split; [reflexivity | constructor]. Qed.

Lemma quiet_tick w w' :
  hd false (faults w) = false -> faults w' = tl (faults w) -> quiet w w'.
Proof.
  intros Hh Ht. unfold quiet. rewrite Ht.
  destruct (faults w) as [|b fs]; cbn in *.
  - exists []. split; [reflexivity | constructor].
  - subst b. exists [false]. split; [reflexivity | repeat constructor].
Qed.

Ltac quiet_prim :=
  run_prim; try discriminate;
  first [ apply quiet_same; reflexivity
        | apply quiet_tick; [assumption | reflexivity] ].

Lemma get_connection_quiet : on_return quiet get_connection.
Proof. quiet_prim. Qed.
Lemma cursor_quiet conn : on_return quiet (cursor conn).
Proof. quiet_prim. Qed.
Lemma execute_query_quiet {A} cur (q : Tables -> A) :
  on_return quiet (execute_query cur q).
Proof. quiet_prim. Qed.
Lemma execute_insert_quiet cur f : on_return quiet (execute_insert cur f).
Proof. quiet_prim. Qed.
Lemma nextval_quiet cur s : on_return quiet (nextval cur s).
Proof. quiet_prim. Qed.
Lemma commit_quiet conn : on_return quiet (commit conn).
Proof. quiet_prim. Qed.
Lemma cursor_close_quiet cur : on_return quiet (cursor_close cur).
Proof. quiet_prim. Qed.
Lemma close_quiet conn : on_return quiet (close conn).
Proof. quiet_prim. Qed.
Lemma _generate_qr_for_mac_quiet mac id :
  on_return quiet (_generate_qr_for_mac mac id).
Proof. quiet_prim. Qed.
Lemma lift_quiet {A} (o : outcome A) : on_return quiet (lift o).
Proof. quiet_prim. Qed.

#[local] Hint Resolve get_connection_quiet cursor_quiet execute_query_quiet
  execute_insert_quiet nextval_quiet commit_quiet cursor_close_quiet
  close_quiet _generate_qr_for_mac_quiet lift_quiet : frame.

Ltac returns_frame :=
  repeat first
    [ solve [auto with frame]
    | apply on_return_ret; preorder
    | apply on_return_raise; preorder
    | apply on_return_bind; preorder
    | match goal with
      | |- forall _, _ => intro
      | |- on_return _ (match ?x with _ => _ end) => destruct x
      | |- on_return _ (if ?x then _ else _) => destruct x
      end ].

Lemma intake_transaction_quiet L user conn cur :
  on_return quiet (intake_transaction L user conn cur).
Proof. unfold intake_transaction, resolve_customer. returns_frame. Qed.

Lemma intake_handler_never_returns conn e :
  never_returns (A := IntakeResult)
    (rollback conn ;;;
     print "Error in register_device_with_order:" e ;;;
     raise e).
Proof. intros w a w'. apply intake_handler_raises. Qed.

(** An intake that returns has met no failure. *)
Lemma register_device_with_order_quiet form_data user :
  on_return quiet (register_device_with_order form_data user).
Proof.
  unfold register_device_with_order.
  apply on_return_bind; preorder; [auto with frame | intros L].
  apply on_return_bind; preorder; [auto with frame | intros conn].
  apply on_return_bind; preorder; [auto with frame | intros cur].
  apply on_return_try_finally; preorder; [|returns_frame].
  apply on_return_try_except; preorder.
  - apply intake_transaction_quiet.
  - intros e. apply intake_handler_never_returns.
Qed.

(** ** Open connections *)

#[local] Instance only_session_preorder c : PreOrder (only_session c).
Proof.
  split.
  - intros w c' _. reflexivity.
  - intros w1 w2 w3 H12 H23 c' Hc. rewrite H23, H12; auto.
Qed.

Ltac session_prim :=
  run_prim; intros c' Hc; cbn;
  rewrite ?lookup_insert_ne, ?lookup_delete_ne by congruence; reflexivity.

Lemma cursor_only_session c : preserves (only_session c) (cursor c).
Proof. session_prim. Qed.
Lemma execute_query_only_session {A} c (q : Tables -> A) :
  preserves (only_session c) (execute_query c q).
Proof. session_prim. Qed.
Lemma execute_insert_only_session c f :
  preserves (only_session c) (execute_insert c f).
Proof. session_prim. Qed.
Lemma nextval_only_session c s : preserves (only_session c) (nextval c s).
Proof. session_prim. Qed.
Lemma commit_only_session c : preserves (only_session c) (commit c).
Proof. session_prim. Qed.
Lemma rollback_only_session c : preserves (only_session c) (rollback c).
Proof. session_prim. Qed.
Lemma cursor_close_only_session c : preserves (only_session c) (cursor_close c).
Proof. session_prim. Qed.
Lemma close_only_session c : preserves (only_session c) (close c).
Proof. session_prim. Qed.
Lemma print_only_session c msg e : preserves (only_session c) (print msg e).
Proof. session_prim. Qed.
Lemma _generate_qr_for_mac_only_session c mac id :
  preserves (only_session c) (_generate_qr_for_mac mac id).
Proof. session_prim. Qed.

#[local] Hint Resolve cursor_only_session execute_query_only_session
  execute_insert_only_session nextval_only_session commit_only_session
  rollback_only_session cursor_close_only_session close_only_session
  print_only_session _generate_qr_for_mac_only_session : frame.

Ltac frame_cases :=
  repeat first
    [ solve [auto with frame]
    | apply preserves_ret; preorder
    | apply preserves_raise; preorder
    | apply preserves_lift; preorder
    | apply preserves_bind; preorder
    | apply preserves_try_except; preorder
    | match goal with
      | |- forall _, _ => intro
      | |- preserves _ (match ?x with _ => _ end) => destruct x
      | |- preserves _ (if ?x then _ else _) => destruct x
      end ].

Lemma intake_transaction_only_session L user c :
  preserves (only_session c) (intake_transaction L user c c).
Proof. unfold intake_transaction, resolve_customer. frame_cases. Qed.

(** Whatever the outcome of an intake, no connection is open afterwards
    that was not open before: the [finally] clause has closed the one the
    intake acquired. *)
Lemma register_device_with_order_releases form_data user w o w' :
  register_device_with_order form_data user w = (o, w') ->
  forall c, is_Some (sessions w' !! c) -> is_Some (sessions w !! c).
Proof.
  unfold register_device_with_order, bind at 1, lift.
  destruct (normalize_form form_data) as [L|e]; [|intros H; inversion H; auto].
  unfold bind at 1.
  destruct (get_connection w) as [[conn|e] w1] eqn:G.
  2:{ intros H; inversion H; subst.
      unfold get_connection, bind, external in G.
      destruct (hd false (faults w)); inversion G; subst; auto. }
  apply get_connection_returns in G as (_ & -> & ->).
  unfold bind at 1, cursor. cbn. rewrite lookup_insert_eq.
  unfold try_finally.
  match goal with |- context [try_except ?b ?h ?w1] =>
    destruct (try_except b h w1) as [o1 w2] eqn:E end.
  assert (only_session (next_conn w)
            (set_next_conn (S (next_conn w))
               (set_sessions (<[next_conn w:=db w]> (sessions w)) (tick w)))
            w2) as Hs.
  { revert E. apply preserves_try_except; preorder.
    - apply intake_transaction_only_session.
    - intros e. frame_cases. }
  cbn. intros H c Hc.
  assert (sessions w' = delete (next_conn w) (sessions w2)) as Hw
    by (inversion H; reflexivity).
  rewrite Hw in Hc. destruct (decide (c = next_conn w)) as [->|Hne].
  - rewrite lookup_delete_eq in Hc. destruct Hc; discriminate.
  - rewrite lookup_delete_ne in Hc by congruence.
    rewrite (Hs c Hne) in Hc. cbn in Hc.
    rewrite lookup_insert_ne in Hc by congruence. exact Hc.
Qed.

(** ** The lookup, evaluated *)

(** The three ways the [try] block of the lookup can go: the connection
    fails; the query fails, and the block is left with the connection still
    open; or the query answers and the connection is closed. *)
Lemma lookup_body_run mac w :
  lookup_body mac w =
    if hd false (faults w) then (Raises DatabaseError, tick w)
    else if hd false (faults (connected w))
         then (Raises DatabaseError, tick (connected w))
         else (Returns (option_map view_of_row
                          (head (select_device_join mac (db w)))),
               set_sessions (delete (next_conn w) (sessions (connected w)))
                 (tick (connected w))).
Proof.
  unfold lookup_body, get_connection, cursor, execute_query, cursor_close,
    close, external, bind, ret.
  cbn. destruct (hd false (faults w)); [reflexivity|].
  cbn. rewrite lookup_insert_eq. cbn.
  destruct (hd false (tail (faults w))); [reflexivity|].
  cbn. rewrite lookup_insert_eq.
  destruct (head (select_device_join mac (db w))); reflexivity.
Qed.

Lemma get_device_by_mac_blank mac w :
  PyStr.strip (PyStr.or_empty mac) = "" ->
  get_device_by_mac mac w = (Returns None, w).
Proof. intros E. unfold get_device_by_mac. rewrite E. reflexivity. Qed.

Lemma is_empty_false s : s <> "" -> PyStr.is_empty s = false.
Proof. destruct s; [congruence | reflexivity]. Qed.

Lemma sql_eq_true a b : sql_eq a b = true <-> a = b /\ a <> "".
Proof.
  unfold sql_eq. rewrite !andb_true_iff, !negb_true_iff, String.eqb_eq.
  destruct a, b; cbn; intuition congruence.
Qed.

(** A row of the join carries a device of the table whose MAC address is
    the one asked for, which is not empty. *)
Lemma select_device_join_device mac T d ol r c :
  In (d, ol, r, c) (select_device_join mac T) ->
  In d (Device_t T) /\ d_IotMacAddr d = mac /\ d_IotMacAddr d <> "".
Proof.
  unfold select_device_join. intros H.
  apply list_elem_of_In in H.
  apply list_elem_of_bind in H as (d' & H & Hd).
  apply list_elem_of_bind in H as (ol' & H & _).
  apply list_elem_of_bind in H as (r' & H & _).
  apply list_elem_of_bind in H as (c' & H & _).
  destruct (sql_eq (d_IotMacAddr d') mac) eqn:E; cbn in H;
    [|apply elem_of_nil in H; contradiction].
  repeat case_match; try (apply elem_of_nil in H; contradiction).
  apply list_elem_of_singleton in H. inversion H; subst.
  apply list_elem_of_In in Hd. split; [exact Hd|].
  apply sql_eq_true in E. exact E.
Qed.

(** ** Runs without failures *)

Lemma no_faults_step w :
  no_faults w -> hd false (faults w) = false /\ no_faults (tick w).
Proof.
  unfold no_faults. cbn. destruct (faults w) as [|[] fs]; cbn; intros H.
  - split; reflexivity.
  - discriminate.
  - split; [reflexivity | assumption].
Qed.

Lemma succeeds_ret {A} I (a : A) : succeeds I (ret a).
Proof. intros w H. exists a, w. split; [reflexivity | exact H]. Qed.

Lemma succeeds_bind {A B} I (m : M A) (k : A -> M B) :
  succeeds I m -> (forall a, succeeds I (k a)) -> succeeds I (bind m k).
Proof.
  intros Hm Hk w H.
  destruct (Hm w H) as (a & w1 & E1 & H1).
  destruct (Hk a w1 H1) as (b & w2 & E2 & H2).
  exists b, w2. unfold bind. rewrite E1. split; assumption.
Qed.

Ltac ready_prim :=
  let w := fresh "w" in
  let Hf := fresh "Hf" in
  let T := fresh "T" in
  let HT := fresh "HT" in
  let H0 := fresh "H0" in
  let H1 := fresh "H1" in
  intros w [Hf [T HT]];
  destruct (no_faults_step w Hf) as [H0 H1];
  unfold execute_query, execute_insert, nextval, commit,
    _generate_qr_for_mac, external, bind;
  cbn; rewrite H0; cbn; rewrite ?HT;
  eexists _, _; (split; [reflexivity|]);
  split; cbn; [exact H1 | rewrite ?lookup_insert_eq; eauto].

Lemma execute_query_succeeds {A} c (q : Tables -> A) :
  succeeds (ready c) (execute_query c q).
Proof. ready_prim. Qed.
Lemma execute_insert_succeeds c f : succeeds (ready c) (execute_insert c f).
Proof. ready_prim. Qed.
Lemma nextval_succeeds c s : succeeds (ready c) (nextval c s).
Proof. ready_prim. Qed.
Lemma commit_succeeds c : succeeds (ready c) (commit c).
Proof. ready_prim. Qed.
Lemma _generate_qr_for_mac_succeeds c mac id :
  succeeds (ready c) (_generate_qr_for_mac mac id).
Proof. ready_prim. Qed.

#[local] Hint Resolve execute_query_succeeds execute_insert_succeeds
  nextval_succeeds commit_succeeds _generate_qr_for_mac_succeeds : frame.

Ltac succeeds_frame :=
  repeat first
    [ solve [auto with frame]
    | apply succeeds_ret
    | apply succeeds_bind
    | match goal with
      | |- forall _, _ => intro
      | |- succeeds _ (match ?x with _ => _ end) => destruct x
      | |- succeeds _ (if ?x then _ else _) => destruct x
      end ].

Lemma normalize_form_returns form_data :
  exists L, normalize_form form_data = Returns L.
Proof.
  unfold normalize_form, _parse_weight, except_ValueError, py_float.
  repeat case_match; try discriminate; eauto.
Qed.

Lemma intake_transaction_succeeds L user c w T emp_no :
  no_faults w ->
  sessions w !! c = Some T ->
  select_EmpNo user T = Some emp_no ->
  exists r w', intake_transaction L user c c w = (Returns r, w').
Proof.
  intros Hf HT He.
  destruct (no_faults_step w Hf) as [H0 H1].
  assert (execute_query c (select_EmpNo user) w
          = (Returns (Some emp_no), tick w)) as Q.
  { unfold execute_query, external, bind. rewrite H0. cbn.
    rewrite HT, He. reflexivity. }
  unfold intake_transaction, bind at 1. rewrite Q. cbv beta iota.
  assert (ready c (tick w)) as Hr by (split; [exact H1 | cbn; eauto]).
  match goal with |- exists r w2, ?m _ = _ =>
    assert (succeeds (ready c) m) as Hs
  end.
  { unfold resolve_customer. succeeds_frame. }
  destruct (Hs _ Hr) as (r & w2 & E & _). eauto.
Qed.

(** With no failure scheduled, the intake of a known employee returns. *)
Lemma register_device_with_order_succeeds form_data user w emp_no :
  no_faults w ->
  select_EmpNo user (db w) = Some emp_no ->
  exists r w', register_device_with_order form_data user w = (Returns r, w').
Proof.
  intros Hf He. unfold register_device_with_order.
  destruct (normalize_form_returns form_data) as [L HL].
  unfold bind at 1, lift. rewrite HL.
  destruct (no_faults_step w Hf) as [H0 H1].
  assert (get_connection w = (Returns (next_conn w), connected w)) as G.
  { unfold get_connection, external, bind. rewrite H0. reflexivity. }
  unfold bind at 1. rewrite G.
  assert (cursor (next_conn w) (connected w)
          = (Returns (next_conn w), connected w)) as C.
  { unfold cursor. cbn. rewrite lookup_insert_eq. reflexivity. }
  unfold bind at 1. rewrite C.
  destruct (intake_transaction_succeeds L user (next_conn w) (connected w)
              (db w) emp_no) as (r & w2 & E).
  { exact H1. }
  { cbn. apply lookup_insert_eq. }
  { exact He. }
  unfold try_finally, try_except. rewrite E. cbn. eauto.
Qed.

(** ** Strings *)

Lemma split_from_tokens s : forall tok,
  Forall (fun t => PyStr.is_empty t = false) (PyStr.split_from tok s).
Proof.
  induction s as [|c s IH]; intros tok; cbn.
  - destruct (PyStr.is_empty tok) eqn:E; repeat constructor. exact E.
  - destruct (PyStr.isspace c).
    + destruct (PyStr.is_empty tok) eqn:E; [apply IH|].
      constructor; [exact E | apply IH].
    + apply IH.
Qed.

Lemma split_lstrip s : PyStr.split (PyStr.lstrip s) = PyStr.split s.
Proof.
  unfold PyStr.split. induction s as [|c s IH]; cbn; [reflexivity|].
  destruct (PyStr.isspace c) eqn:E; [exact IH|].
  cbn. rewrite E. reflexivity.
Qed.

Lemma split_from_cons tok c s :
  PyStr.split_from tok (String c s) =
    if PyStr.isspace c
    then (if PyStr.is_empty tok then PyStr.split_from EmptyString s
          else tok :: PyStr.split_from EmptyString s)
    else PyStr.split_from (tok ++ String c EmptyString) s.
Proof. reflexivity. Qed.

Lemma split_from_rstrip s : forall tok,
  PyStr.split_from tok (PyStr.rstrip s) = PyStr.split_from tok s.
Proof.
  induction s as [|c s IH]; intros tok; [reflexivity|].
  rewrite (split_from_cons tok c s). cbn [PyStr.rstrip].
  destruct (PyStr.rstrip s) as [|c' r] eqn:E.
  - rewrite <- !IH.
    destruct (PyStr.isspace c) eqn:Ec; cbn; rewrite ?Ec;
      destruct (PyStr.is_empty tok); reflexivity.
  - rewrite (split_from_cons tok c (String c' r)).
    rewrite <- !IH. reflexivity.
Qed.

Lemma split_strip s : PyStr.split (PyStr.strip s) = PyStr.split s.
Proof.
  unfold PyStr.strip, PyStr.split. rewrite split_from_rstrip.
  apply split_lstrip.
Qed.

(** ** The fields of a normalized form *)

Lemma _parse_weight_returns value dflt :
  exists x, _parse_weight value dflt = Returns x.
Proof.
  unfold _parse_weight, except_ValueError, py_float.
  repeat case_match; try discriminate; eauto.
Qed.

Lemma normalize_form_fields form_data L :
  normalize_form form_data = Returns L ->
  mac_addr L = PyStr.strip (form_get form_data "mac_address" "") /\
  customer_email L = PyStr.strip (form_get form_data "customer_email" "") /\
  dropoff_site L = PyStr.strip (form_get form_data "dropoff_site" "Main Facility") /\
  status L = PyStr.strip (form_get form_data "status" "Received") /\
  hazard_class L = PyStr.strip (form_get form_data "hazard_class" "Medium") /\
  _parse_weight (Some (form_get form_data "weight_kg" "1.0")) 1.0%float
    = Returns (weight_kg L) /\
  (let p := _split_customer_name
              (Some (PyStr.strip (form_get form_data "customer_name" ""))) in
   cust_first L = (if PyStr.is_empty (fst p) then "Unknown" else fst p) /\
   cust_last L = (if PyStr.is_empty (snd p) then "Customer" else snd p)).
Proof.
  unfold normalize_form.
  destruct (_parse_weight _ _) as [x|e]; [|discriminate].
  destruct (_split_customer_name _) as [f l]. intros H.
  inversion H; subst; cbn. auto 10.
Qed.

(** ** The tables that an intake commits *)

Lemma tables_after_Customer_t L emp_no w :
  Customer_t (tables_after L emp_no w) =
    match existing_customer L (db w) with
    | Some _ => Customer_t (db w)
    | None => (Customer_t (db w) ++ [new_Customer L (next_customer w)])%list
    end.
Proof.
  unfold tables_after, customer_key.
  destruct (existing_customer L (db w)); reflexivity.
Qed.

Lemma tables_after_RecyclingOrder_t L emp_no w :
  RecyclingOrder_t (tables_after L emp_no w) =
    (RecyclingOrder_t (db w) ++
     [new_RecyclingOrder L (next_order w) (customer_key L w) emp_no (sysdate w)])%list.
Proof.
  unfold tables_after. destruct (existing_customer L (db w)); reflexivity.
Qed.

Lemma tables_after_Device_t L emp_no w :
  Device_t (tables_after L emp_no w) =
    (Device_t (db w) ++
     [new_Device L (next_device w) (PyStr.str_of_Z (next_device w) ++ ".png")
        (customer_key L w)])%list.
Proof.
  unfold tables_after. destruct (existing_customer L (db w)); reflexivity.
Qed.

Lemma tables_after_OrdLine_t L emp_no w :
  OrdLine_t (tables_after L emp_no w) =
    (OrdLine_t (db w) ++ [new_OrdLine L (next_order w) (next_device w)])%list.
Proof.
  unfold tables_after. destruct (existing_customer L (db w)); reflexivity.
Qed.

Lemma tables_after_Employee_t L emp_no w :
  Employee_t (tables_after L emp_no w) = Employee_t (db w).
Proof.
  unfold tables_after. destruct (existing_customer L (db w)); reflexivity.
Qed.

(* ===================================================================== *)
(** * The properties C1 to C10 of the specification *)
(* ===================================================================== *)

(** ** C1: the name of a customer given by a single token *)

(** C1, as the specification states it, fails: the intake of the customer
    name "DIPINA", a single token, returns, and the name it has stored is
    ("DIPINA", "Customer"), not ("DIPINA", ""). *)
Lemma single_token_intake_counterexample :
  let run := register_device_with_order form_dipina "tech01" world0 in
  PyStr.split (PyStr.strip (form_get form_dipina "customer_name" "")) = ["DIPINA"] /\
  (exists r, fst run = Returns r) /\
  stored_names (snd run) = [("DIPINA", "Customer")] /\
  stored_names (snd run) <> [("DIPINA", "")].
Proof.
  vm_compute. repeat split; try reflexivity.
  - eexists. reflexivity.
  - discriminate.
Qed.

(** C1, amended: for every customer name that consists of exactly one
    whitespace-delimited token after trimming, [_split_customer_name]
    returns that token and an empty last name, and an intake that returns
    has either reused a customer (no Customer row written) or stored one
    new Customer row whose first name is the token and whose last name is
    the placeholder "Customer". *)
Theorem single_token_name form_data user w r w' t :
  PyStr.split (PyStr.strip (form_get form_data "customer_name" "")) = [t] ->
  register_device_with_order form_data user w = (Returns r, w') ->
  _split_customer_name (Some (form_get form_data "customer_name" "")) = (t, "") /\
  (Customer_t (db w') = Customer_t (db w) \/
   exists c,
     Customer_t (db w') = (Customer_t (db w) ++ [c])%list /\
     c_CustFirstName c = t /\ c_CustLastName c = "Customer").
Proof.
  intros Ht H.
  split; [unfold _split_customer_name; cbn [PyStr.or_empty]; rewrite Ht; reflexivity|].
  apply register_device_with_order_returns in H
    as (L & emp_no & HL & _ & _ & Hdb & _).
  apply normalize_form_fields in HL as (_ & _ & _ & _ & _ & _ & Hf & Hl).
  rewrite Hdb, tables_after_Customer_t.
  destruct (existing_customer L (db w)); [left; reflexivity|].
  right. eexists. split; [reflexivity|]. cbn.
  unfold _split_customer_name in Hf, Hl. cbn [PyStr.or_empty] in Hf, Hl.
  rewrite split_strip, Ht in Hf, Hl. cbn in Hf, Hl.
  pose proof (split_from_tokens
                (PyStr.strip (form_get form_data "customer_name" "")) EmptyString)
    as Htok.
  fold (PyStr.split (PyStr.strip (form_get form_data "customer_name" ""))) in Htok.
  rewrite Ht in Htok. inversion Htok as [|? ? Hne _]; subst.
  rewrite Hne in Hf. split; assumption.
Qed.

Lemma single_token_name_witness :
  exists r w',
    register_device_with_order form_dipina "tech01" world0 = (Returns r, w') /\
    _split_customer_name (Some (form_get form_dipina "customer_name" ""))
      = ("DIPINA", "") /\
    (Customer_t (db w') = Customer_t (db world0) \/
     exists c,
       Customer_t (db w') = (Customer_t (db world0) ++ [c])%list /\
       c_CustFirstName c = "DIPINA" /\ c_CustLastName c = "Customer").
Proof.
  eexists _, _. split; [vm_compute; reflexivity|].
  eapply (single_token_name form_dipina "tech01" world0).
  - vm_compute. reflexivity.
  - vm_compute. reflexivity.
Defined.

(** ** C2: blank drop-off site, hazard classification and status *)

(** C2 at a form whose drop-off site, hazard classification and status are
    present and blank: the intake returns, and the rows it has stored hold
    the empty string in the three columns, where C2 has "Main Facility",
    "Medium" and "Received".  The defaults are those of
    [form_data.get], which apply to a field that is absent only. *)
Theorem blank_fields_are_stored_blank :
  let run := register_device_with_order form_blank "tech01" world0 in
  (exists r, fst run = Returns r) /\
  map r_DropOffSite (RecyclingOrder_t (db (snd run))) = [""] /\
  map (fun d => (d_HazardClass d, d_Status d)) (Device_t (db (snd run)))
    = [("", "")].
Proof.
  vm_compute. repeat split; try reflexivity. eexists. reflexivity.
Qed.

(** The same three fields, absent from the form, do get the defaults. *)
Lemma absent_fields_get_defaults :
  let run := register_device_with_order form_dipina "tech01" world0 in
  map r_DropOffSite (RecyclingOrder_t (db (snd run))) = ["Main Facility"] /\
  map (fun d => (d_HazardClass d, d_Status d)) (Device_t (db (snd run)))
    = [("Medium", "Received")].
Proof. vm_compute. split; reflexivity. Qed.

(** ** C3: release of the connection *)

(** C3 at a lookup whose query fails: [get_device_by_mac] returns [None],
    and the connection it acquired, number 0, is still open once it has
    returned.  The [except] clause of the lookup returns without closing
    what the [try] block opened. *)
Theorem lookup_leaks_connection_on_store_error :
  let run := get_device_by_mac (Some "9a:4b:7c:12:ff:09") world_query_fails in
  fst run = Returns None /\
  sessions world_query_fails !! 0%nat = None /\
  sessions (snd run) !! 0%nat = Some (db world_query_fails).
Proof. vm_compute. repeat split; reflexivity. Qed.

(** The same holds on every store: when the query of the lookup is the call
    that fails, the session of the lookup outlives the call. *)
Lemma lookup_leaks_when_query_fails mac w :
  PyStr.strip (PyStr.or_empty mac) <> "" ->
  hd false (faults w) = false ->
  hd false (tl (faults w)) = true ->
  exists w',
    get_device_by_mac mac w = (Returns None, w') /\
    sessions w' !! next_conn w = Some (db w).
Proof.
  intros Hm H0 H1. unfold get_device_by_mac.
  rewrite (is_empty_false _ Hm). unfold try_except.
  rewrite lookup_body_run, H0. cbn. rewrite H1.
  eexists. split; [reflexivity|]. cbn. apply lookup_insert_eq.
Qed.

(** On its other paths the lookup leaves open no connection of its own. *)
Lemma lookup_releases_otherwise mac w o w' :
  get_device_by_mac mac w = (o, w') ->
  hd false (faults w) = true \/ hd false (tl (faults w)) = false ->
  forall c, is_Some (sessions w' !! c) -> is_Some (sessions w !! c).
Proof.
  unfold get_device_by_mac.
  destruct (PyStr.is_empty _); [intros H; inversion H; auto|].
  unfold try_except. rewrite lookup_body_run.
  destruct (hd false (faults w)) eqn:H0; cbn.
  - intros H _. inversion H; subst. cbn. auto.
  - intros H [?|H1]; [discriminate|]. rewrite H1 in H.
    inversion H; subst. cbn. intros c.
    destruct (decide (c = next_conn w)) as [->|Hne].
    + rewrite lookup_delete_eq. intros [? ?]; discriminate.
    + rewrite lookup_delete_ne, lookup_insert_ne by congruence. auto.
Qed.

(** ** C4: the intake is all or nothing *)

(** C4: whatever the form, the caller and the failures that the store and
    the renderer have in stock, an intake either raises, and then the
    committed tables are exactly those before the call, so that no Customer,
    RecyclingOrder, Device or OrdLine row of the call can be observed; or it
    returns, and then the caller was a known employee and not one of the
    external calls it made had failed.  Hence an unknown caller, a store
    error or a failure of the QR generation each make the call raise. *)
Theorem intake_all_or_nothing form_data user w :
  match register_device_with_order form_data user w with
  | (Raises e, w') => db w' = db w
  | (Returns r, w') =>
      (exists emp_no, select_EmpNo user (db w) = Some emp_no) /\ quiet w w'
  end.
Proof.
  destruct (register_device_with_order form_data user w) as [[r|e] w'] eqn:E.
  - split.
    + apply register_device_with_order_returns in E
        as (L & emp_no & _ & He & _). eauto.
    + eapply register_device_with_order_quiet, E.
  - eapply register_device_with_order_on_raise, E.
Qed.

(** ** C5: uniqueness of the MAC address *)

(** C5, as the specification states it, fails: two intakes of the same MAC
    address both return, and the Device table then holds that address
    twice.  The intake has no check of the MAC address at all. *)
Lemma mac_unique_counterexample :
  let run1 := register_device_with_order form_dipina "tech01" world0 in
  let run2 := register_device_with_order form_dipina "tech01" (snd run1) in
  (exists r1, fst run1 = Returns r1) /\
  (exists r2, fst run2 = Returns r2) /\
  stored_macs (snd run2) = ["9a:4b:7c:12:ff:09"; "9a:4b:7c:12:ff:09"] /\
  ~ NoDup (stored_macs (snd run2)).
Proof.
  cbv zeta.
  split; [vm_compute; eexists; reflexivity|].
  split; [vm_compute; eexists; reflexivity|].
  match goal with |- ?l = ?v /\ _ =>
    assert (l = v) as E by (vm_compute; reflexivity)
  end.
  split; [exact E|]. rewrite E.
  intros H. inversion H as [|? ? Hin _]. apply Hin. now left.
Qed.

(** C5, amended: the intake performs no uniqueness check of the MAC address;
    an intake that returns has appended one Device row that carries the
    trimmed MAC address of the form, whatever the table held.  So, on a
    table whose MAC addresses are pairwise distinct, they are pairwise
    distinct afterwards exactly when the new address was not stored yet. *)
Theorem mac_unique_iff_fresh form_data user w r w' :
  NoDup (stored_macs w) ->
  register_device_with_order form_data user w = (Returns r, w') ->
  stored_macs w' = (stored_macs w ++ [out_mac_addr r])%list /\
  out_mac_addr r = PyStr.strip (form_get form_data "mac_address" "") /\
  (NoDup (stored_macs w') <-> ~ In (out_mac_addr r) (stored_macs w)).
Proof.
  intros Hnd H.
  apply register_device_with_order_returns in H
    as (L & emp_no & HL & _ & -> & Hdb & _).
  apply normalize_form_fields in HL as (Hmac & _).
  assert (stored_macs w' = (stored_macs w ++ [mac_addr L])%list) as Hm.
  { unfold stored_macs. rewrite Hdb, tables_after_Device_t, map_app.
    reflexivity. }
  cbn [out_mac_addr]. split; [exact Hm|]. split; [exact Hmac|].
  rewrite Hm, NoDup_app. split.
  - intros (_ & Hdisj & _) Hin.
    apply (Hdisj (mac_addr L)); [apply list_elem_of_In, Hin|].
    apply list_elem_of_singleton. reflexivity.
  - intros Hin. split; [exact Hnd|]. split.
    + intros x Hx Hx'. apply list_elem_of_singleton in Hx'. subst x.
      apply Hin, list_elem_of_In, Hx.
    + apply NoDup_singleton.
Qed.

Lemma mac_unique_iff_fresh_witness :
  exists r w',
    register_device_with_order form_dipina "tech01" world0 = (Returns r, w') /\
    stored_macs w' = (stored_macs world0 ++ [out_mac_addr r])%list /\
    out_mac_addr r = PyStr.strip (form_get form_dipina "mac_address" "") /\
    (NoDup (stored_macs w') <-> ~ In (out_mac_addr r) (stored_macs world0)).
Proof.
  eexists _, _. split; [vm_compute; reflexivity|].
  apply (mac_unique_iff_fresh form_dipina "tech01" world0).
  - vm_compute. constructor.
  - vm_compute. reflexivity.
Defined.

(** ** C6 and C7: deduplication of the customer by email *)

Lemma find_app {A} (p : A -> bool) (l1 l2 : list A) :
  find p (l1 ++ l2) =
    match find p l1 with
    | Some x => Some x
    | None => find p l2
    end.
Proof.
  induction l1 as [|x l1 IH]; cbn; [reflexivity|].
  destruct (p x); [reflexivity | exact IH].
Qed.

Lemma find_none_filter {A} (p : A -> bool) (l : list A) :
  find p l = None -> List.filter p l = [].
Proof.
  induction l as [|x l IH]; cbn; [reflexivity|].
  destruct (p x); [discriminate | exact IH].
Qed.

Lemma find_some_filter {A} (p : A -> bool) (l : list A) x :
  find p l = Some x -> (1 <= length (List.filter p l))%nat.
Proof.
  induction l as [|y l IH]; cbn; [discriminate|].
  destruct (p y); cbn; [lia | exact IH].
Qed.

Lemma existing_customer_email L T :
  customer_email L <> "" ->
  existing_customer L T = select_CustNo (customer_email L) T.
Proof.
  intros H. unfold existing_customer. rewrite (is_empty_false _ H). reflexivity.
Qed.

(** After an intake with a non-empty email, the customer that the intake
    has used is the one that a search by that email finds. *)
Lemma customer_found_after_intake L emp_no w :
  customer_email L <> "" ->
  select_CustNo (customer_email L) (tables_after L emp_no w)
    = Some (customer_key L w).
Proof.
  intros Hne. unfold select_CustNo at 1.
  rewrite tables_after_Customer_t. unfold customer_key.
  rewrite (existing_customer_email L (db w) Hne).
  unfold select_CustNo.
  destruct (find _ (Customer_t (db w))) as [c|] eqn:F; cbn.
  - rewrite F. reflexivity.
  - rewrite find_app, F. cbn.
    assert (sql_eq (customer_email L) (customer_email L) = true) as ->
      by (apply sql_eq_true; auto).
    reflexivity.
Qed.

(** C6: of two successive intakes that return and give the same customer
    email, not empty once trimmed, the second one finds the customer that
    the first one used, writes no Customer row and allocates no customer
    key; the two orders and the two devices are new rows with distinct keys,
    all four of them attached to that one customer; and if the email was
    that of at most one Customer row before, it is that of exactly one
    afterwards. *)
Theorem same_email_one_customer form1 form2 user1 user2 w r1 w1 r2 w2 :
  let email := PyStr.strip (form_get form1 "customer_email" "") in
  email <> "" ->
  PyStr.strip (form_get form2 "customer_email" "") = email ->
  register_device_with_order form1 user1 w = (Returns r1, w1) ->
  register_device_with_order form2 user2 w1 = (Returns r2, w2) ->
  exists k o1 o2 d1 d2,
    select_CustNo email (db w1) = Some k /\
    Customer_t (db w2) = Customer_t (db w1) /\
    next_customer w2 = next_customer w1 /\
    RecyclingOrder_t (db w2) = (RecyclingOrder_t (db w) ++ [o1; o2])%list /\
    r_CustNo o1 = k /\ r_CustNo o2 = k /\ r_OrdNo o1 <> r_OrdNo o2 /\
    Device_t (db w2) = (Device_t (db w) ++ [d1; d2])%list /\
    d_DeviceID d1 = out_device_id r1 /\ d_DeviceID d2 = out_device_id r2 /\
    d_DeviceID d1 <> d_DeviceID d2 /\
    d_OrigCustNo d1 = k /\ d_OrigCustNo d2 = k /\
    ((length (customers_with_email email (db w)) <= 1)%nat ->
     length (customers_with_email email (db w2)) = 1%nat).
Proof.
  intros email Hne Heq H1 H2.
  apply register_device_with_order_returns in H1
    as (L1 & e1 & HL1 & _ & -> & Hdb1 & Hc1 & Ho1 & Hd1 & _).
  apply register_device_with_order_returns in H2
    as (L2 & e2 & HL2 & _ & -> & Hdb2 & Hc2 & Ho2 & Hd2 & _).
  apply normalize_form_fields in HL1 as (_ & Hm1 & _).
  apply normalize_form_fields in HL2 as (_ & Hm2 & _).
  fold email in Hm1. rewrite Heq in Hm2.
  assert (select_CustNo email (db w1) = Some (customer_key L1 w)) as Hfound.
  { rewrite Hdb1, <- Hm1. apply customer_found_after_intake. congruence. }
  assert (existing_customer L2 (db w1) = Some (customer_key L1 w)) as Hex.
  { rewrite existing_customer_email by congruence. rewrite Hm2. exact Hfound. }
  assert (customer_key L2 w1 = customer_key L1 w) as Hk2
    by (unfold customer_key at 1; rewrite Hex; reflexivity).
  rewrite Hex in Hc2.
  eexists (customer_key L1 w), _, _, _, _.
  split; [exact Hfound|].
  split; [rewrite Hdb2, tables_after_Customer_t, Hex; reflexivity|].
  split; [exact Hc2|].
  split.
  { rewrite Hdb2, tables_after_RecyclingOrder_t, Hdb1,
      tables_after_RecyclingOrder_t, <- app_assoc. reflexivity. }
  split; [reflexivity|]. split; [exact Hk2|].
  split; [cbn; lia|].
  split.
  { rewrite Hdb2, tables_after_Device_t, Hdb1, tables_after_Device_t,
      <- app_assoc. reflexivity. }
  split; [reflexivity|]. split; [reflexivity|].
  split; [cbn; lia|].
  split; [reflexivity|]. split; [exact Hk2|].
  intros Hle. unfold customers_with_email.
  rewrite Hdb2, tables_after_Customer_t, Hex, Hdb1, tables_after_Customer_t.
  rewrite (existing_customer_email L1 (db w)) by congruence.
  unfold customers_with_email in Hle. unfold select_CustNo.
  rewrite Hm1.
  change (fun c => sql_eq (c_CustEmail c) email) with (has_email email).
  destruct (find (has_email email) (Customer_t (db w))) as [c|] eqn:F;
    cbn [option_map].
  - apply find_some_filter in F. lia.
  - rewrite List.filter_app, (find_none_filter _ _ F).
    cbn. unfold has_email. cbn. rewrite Hm1.
    assert (sql_eq email email = true) as -> by (apply sql_eq_true; auto).
    reflexivity.
Qed.

Lemma same_email_one_customer_witness :
  exists r1 w1 r2 w2,
    register_device_with_order form_first "tech01" world0 = (Returns r1, w1) /\
    register_device_with_order form_second "tech01" w1 = (Returns r2, w2) /\
    length (Customer_t (db w2)) = 1%nat /\
    exists k o1 o2 d1 d2,
      select_CustNo "james@example.org" (db w1) = Some k /\
      Customer_t (db w2) = Customer_t (db w1) /\
      next_customer w2 = next_customer w1 /\
      RecyclingOrder_t (db w2) = (RecyclingOrder_t (db world0) ++ [o1; o2])%list /\
      r_CustNo o1 = k /\ r_CustNo o2 = k /\ r_OrdNo o1 <> r_OrdNo o2 /\
      Device_t (db w2) = (Device_t (db world0) ++ [d1; d2])%list /\
      d_DeviceID d1 = out_device_id r1 /\ d_DeviceID d2 = out_device_id r2 /\
      d_DeviceID d1 <> d_DeviceID d2 /\
      d_OrigCustNo d1 = k /\ d_OrigCustNo d2 = k /\
      ((length (customers_with_email "james@example.org" (db world0)) <= 1)%nat ->
       length (customers_with_email "james@example.org" (db w2)) = 1%nat).
Proof.
  eexists _, _, _, _.
  split; [vm_compute; reflexivity|].
  split; [vm_compute; reflexivity|].
  split; [vm_compute; reflexivity|].
  apply (same_email_one_customer form_first form_second "tech01" "tech01" world0).
  - vm_compute. discriminate.
  - vm_compute. reflexivity.
  - vm_compute. reflexivity.
  - vm_compute. reflexivity.
Defined.

(** C7: two successive intakes that return, both with an email that is
    empty once trimmed and both with the same customer name, have each
    created a Customer row: the table has grown by two rows with distinct
    keys, the same first and last names and no email, whatever customers it
    held before. *)
Theorem empty_email_two_customers form1 form2 user1 user2 w r1 w1 r2 w2 :
  PyStr.strip (form_get form1 "customer_email" "") = "" ->
  PyStr.strip (form_get form2 "customer_email" "") = "" ->
  form_get form1 "customer_name" "" = form_get form2 "customer_name" "" ->
  register_device_with_order form1 user1 w = (Returns r1, w1) ->
  register_device_with_order form2 user2 w1 = (Returns r2, w2) ->
  exists c1 c2,
    Customer_t (db w2) = (Customer_t (db w) ++ [c1; c2])%list /\
    c_CustNo c1 <> c_CustNo c2 /\
    c_CustFirstName c1 = c_CustFirstName c2 /\
    c_CustLastName c1 = c_CustLastName c2 /\
    c_CustEmail c1 = "" /\ c_CustEmail c2 = "".
Proof.
  intros He1 He2 Hn H1 H2.
  apply register_device_with_order_returns in H1
    as (L1 & e1 & HL1 & _ & _ & Hdb1 & Hc1 & _).
  apply register_device_with_order_returns in H2
    as (L2 & e2 & HL2 & _ & _ & Hdb2 & Hc2 & _).
  apply normalize_form_fields in HL1 as (_ & Hm1 & _ & _ & _ & _ & Hf1 & Hl1).
  apply normalize_form_fields in HL2 as (_ & Hm2 & _ & _ & _ & _ & Hf2 & Hl2).
  rewrite He1 in Hm1. rewrite He2 in Hm2. rewrite <- Hn in Hf2, Hl2.
  assert (forall T, existing_customer L1 T = None) as Hx1
    by (intros T; unfold existing_customer; rewrite Hm1; reflexivity).
  assert (forall T, existing_customer L2 T = None) as Hx2
    by (intros T; unfold existing_customer; rewrite Hm2; reflexivity).
  rewrite Hx1 in Hc1.
  exists (new_Customer L1 (next_customer w)), (new_Customer L2 (next_customer w1)).
  split.
  { rewrite Hdb2, tables_after_Customer_t, Hx2, Hdb1,
      tables_after_Customer_t, Hx1, <- app_assoc. reflexivity. }
  cbn. repeat split; try congruence. lia.
Qed.

Lemma empty_email_two_customers_witness :
  exists r1 w1 r2 w2,
    register_device_with_order form_anonymous "tech01" world0 = (Returns r1, w1) /\
    register_device_with_order form_anonymous "tech01" w1 = (Returns r2, w2) /\
    exists c1 c2,
      Customer_t (db w2) = (Customer_t (db world0) ++ [c1; c2])%list /\
      c_CustNo c1 <> c_CustNo c2 /\
      c_CustFirstName c1 = c_CustFirstName c2 /\
      c_CustLastName c1 = c_CustLastName c2 /\
      c_CustEmail c1 = "" /\ c_CustEmail c2 = "".
Proof.
  pose (run1 := register_device_with_order form_anonymous "tech01" world0).
  pose (run2 := register_device_with_order form_anonymous "tech01" (snd run1)).
  exists (result_of (fst run1)), (snd run1), (result_of (fst run2)), (snd run2).
  split; [vm_compute; reflexivity|].
  split; [vm_compute; reflexivity|].
  apply (empty_email_two_customers form_anonymous form_anonymous
           "tech01" "tech01" world0
           (result_of (fst run1)) (snd run1) (result_of (fst run2))).
  - vm_compute. reflexivity.
  - vm_compute. reflexivity.
  - reflexivity.
  - vm_compute. reflexivity.
  - vm_compute. reflexivity.
Defined.

(** ** C8: the lookup never fails *)

(** C8: for every MAC address given, [None] included, the lookup returns;
    it raises nothing.  If the address is empty once trimmed, it returns
    [None] and leaves the world as it found it: no connection was opened and
    no call reached the store.  If the join has no row for the trimmed
    address, or if the [try] block raised, whatever the exception, it
    returns [None]. *)
Theorem lookup_returns_absent mac w :
  let m := PyStr.strip (PyStr.or_empty mac) in
  exists r w',
    get_device_by_mac mac w = (Returns r, w') /\
    (m = "" -> r = None /\ w' = w) /\
    (select_device_join m (db w) = [] -> r = None) /\
    (forall e w1, lookup_body m w = (Raises e, w1) -> r = None).
Proof.
  intros m. unfold get_device_by_mac. fold m.
  destruct (PyStr.is_empty m) eqn:E.
  - exists None, w. split; [reflexivity|]. auto.
  - assert (m <> "") as Hm by (intros Hm; rewrite Hm in E; discriminate).
    unfold try_except.
    destruct (lookup_body m w) as [[r|e] w1] eqn:B.
    + exists r, w1. split; [reflexivity|].
      split; [intros; contradiction|]. split; [|intros; discriminate].
      intros Hj. rewrite lookup_body_run, Hj in B.
      destruct (hd false (faults w)); [discriminate|].
      destruct (hd false (faults (connected w))); [discriminate|].
      inversion B. reflexivity.
    + eexists None, _. split; [reflexivity|].
      split; [intros; contradiction|]. auto.
Qed.

(** ** C9: coercion of the weight *)

Example parse_weight_examples :
  _parse_weight (Some "2.5") 1.0%float = Returns 2.5%float /\
  _parse_weight (Some "") 1.0%float = Returns 1.0%float /\
  _parse_weight (Some "abc") 1.0%float = Returns 1.0%float /\
  _parse_weight None 1.0%float = Returns 1.0%float /\
  _parse_weight (Some " 1e3 ") 1.0%float = Returns 1000%float /\
  _parse_weight (Some "2,5") 1.0%float = Returns 1.0%float.
Proof. vm_compute. repeat split; reflexivity. Qed.

(** C9: the coercion of the weight never raises, whatever the text, and so
    does not abort the intake; and an intake that returns has stored, in
    the Device row it has appended, the weight 2.5 when the form gave
    "2.5", and the weight 1.0 when the form gave "", gave "abc" or had no
    weight field. *)
Theorem weight_coercion form_data user w r w' :
  register_device_with_order form_data user w = (Returns r, w') ->
  (forall value dflt, exists x, _parse_weight value dflt = Returns x) /\
  (exists L, normalize_form form_data = Returns L) /\
  exists dev,
    Device_t (db w') = (Device_t (db w) ++ [dev])%list /\
    d_DeviceID dev = out_device_id r /\
    (form_data !! "weight_kg" = Some "2.5" -> d_WeightKg dev = 2.5%float) /\
    (form_data !! "weight_kg" = Some "" -> d_WeightKg dev = 1.0%float) /\
    (form_data !! "weight_kg" = Some "abc" -> d_WeightKg dev = 1.0%float) /\
    (form_data !! "weight_kg" = None -> d_WeightKg dev = 1.0%float).
Proof.
  intros H.
  split; [apply _parse_weight_returns|].
  split; [apply normalize_form_returns|].
  apply register_device_with_order_returns in H
    as (L & emp_no & HL & _ & -> & Hdb & _).
  apply normalize_form_fields in HL as (_ & _ & _ & _ & _ & Hw & _).
  eexists. split; [rewrite Hdb; apply tables_after_Device_t|].
  split; [reflexivity|]. cbn [d_WeightKg new_Device].
  unfold form_get in Hw.
  repeat split; intros E; rewrite E in Hw; revert Hw;
    generalize (weight_kg L); intros x Hw; vm_compute in Hw; congruence.
Qed.

Lemma weight_coercion_witness :
  exists r w',
    register_device_with_order form_first "tech01" world0 = (Returns r, w') /\
    form_first !! "weight_kg" = Some "2.5" /\
    map d_WeightKg (Device_t (db w')) = [2.5%float] /\
    (forall value dflt, exists x, _parse_weight value dflt = Returns x) /\
    (exists L, normalize_form form_first = Returns L) /\
    exists dev,
      Device_t (db w') = (Device_t (db world0) ++ [dev])%list /\
      d_DeviceID dev = out_device_id r /\
      (form_first !! "weight_kg" = Some "2.5" -> d_WeightKg dev = 2.5%float) /\
      (form_first !! "weight_kg" = Some "" -> d_WeightKg dev = 1.0%float) /\
      (form_first !! "weight_kg" = Some "abc" -> d_WeightKg dev = 1.0%float) /\
      (form_first !! "weight_kg" = None -> d_WeightKg dev = 1.0%float).
Proof.
  eexists _, _.
  split; [vm_compute; reflexivity|].
  split; [vm_compute; reflexivity|].
  split; [vm_compute; reflexivity|].
  apply (weight_coercion form_first "tech01" world0).
  vm_compute. reflexivity.
Defined.

(** ** C10: the intake of a device without MAC address *)

Lemma get_device_by_mac_found mac w v w' :
  get_device_by_mac mac w = (Returns (Some v), w') ->
  exists row,
    In row (select_device_join (PyStr.strip (PyStr.or_empty mac)) (db w)) /\
    v = view_of_row row.
Proof.
  unfold get_device_by_mac.
  destruct (PyStr.is_empty _); [discriminate|].
  unfold try_except. rewrite lookup_body_run.
  destruct (hd false (faults w)); [discriminate|].
  destruct (hd false (faults (connected w))); [discriminate|].
  destruct (select_device_join _ (db w)) as [|row rows]; [discriminate|].
  cbn. intros H. inversion H. exists row. split; [left|]; reflexivity.
Qed.

(** C10: an intake whose MAC address is absent from the form, or blank, is
    not rejected: if the caller is a known employee and no failure is
    scheduled, it returns, and the Device row it has appended has the empty
    string as MAC address.  Looking that address up returns [None] on every
    store, and whatever a lookup finds, for whatever input, comes from a
    Device row whose MAC address is not empty: never from this one. *)
Theorem blank_mac_intake form_data user w emp_no :
  PyStr.strip (form_get form_data "mac_address" "") = "" ->
  select_EmpNo user (db w) = Some emp_no ->
  no_faults w ->
  exists r w' dev,
    register_device_with_order form_data user w = (Returns r, w') /\
    out_mac_addr r = "" /\
    Device_t (db w') = (Device_t (db w) ++ [dev])%list /\
    d_DeviceID dev = out_device_id r /\
    d_IotMacAddr dev = "" /\
    (forall w2, get_device_by_mac (Some (d_IotMacAddr dev)) w2 = (Returns None, w2)) /\
    (forall mac w2 v w3,
       get_device_by_mac mac w2 = (Returns (Some v), w3) ->
       exists d ol ro c,
         In (d, ol, ro, c)
            (select_device_join (PyStr.strip (PyStr.or_empty mac)) (db w2)) /\
         v = view_of_row (d, ol, ro, c) /\
         d_IotMacAddr d <> "" /\ d <> dev).
Proof.
  intros Hmac He Hf.
  destruct (register_device_with_order_succeeds form_data user w emp_no Hf He)
    as (r & w' & H).
  pose proof H as H'.
  apply register_device_with_order_returns in H'
    as (L & emp_no' & HL & _ & Hr & Hdb & _).
  exists r, w'. eexists. split; [exact H|]. rewrite Hr.
  apply normalize_form_fields in HL as (Hm & _). rewrite Hmac in Hm.
  cbn [out_mac_addr out_device_id].
  split; [exact Hm|].
  split; [rewrite Hdb; apply tables_after_Device_t|].
  cbn [d_DeviceID d_IotMacAddr new_Device].
  split; [reflexivity|]. split; [exact Hm|].
  split.
  - intros w2. apply get_device_by_mac_blank. cbn. rewrite Hm. reflexivity.
  - intros mac w2 v w3 Hl.
    apply get_device_by_mac_found in Hl as ([[[d ol] ro] c] & Hin & ->).
    exists d, ol, ro, c. split; [exact Hin|]. split; [reflexivity|].
    apply select_device_join_device in Hin as (_ & _ & Hne).
    split; [exact Hne|].
    intros ->. apply Hne. cbn. exact Hm.
Qed.

Lemma blank_mac_intake_witness :
  exists r w' dev,
    register_device_with_order form_no_mac "tech01" world0 = (Returns r, w') /\
    out_mac_addr r = "" /\
    Device_t (db w') = (Device_t (db world0) ++ [dev])%list /\
    d_DeviceID dev = out_device_id r /\
    d_IotMacAddr dev = "" /\
    (forall w2, get_device_by_mac (Some (d_IotMacAddr dev)) w2 = (Returns None, w2)) /\
    (forall mac w2 v w3,
       get_device_by_mac mac w2 = (Returns (Some v), w3) ->
       exists d ol ro c,
         In (d, ol, ro, c)
            (select_device_join (PyStr.strip (PyStr.or_empty mac)) (db w2)) /\
         v = view_of_row (d, ol, ro, c) /\
         d_IotMacAddr d <> "" /\ d <> dev).
Proof.
  apply (blank_mac_intake form_no_mac "tech01" world0 7).
  - vm_compute. reflexivity.
  - vm_compute. reflexivity.
  - vm_compute. reflexivity.
Defined.

(* ===================================================================== *)
(** * Further properties of the code *)
(* ===================================================================== *)

(** ** Sequences and surrogate keys *)

#[local] Instance seq_le_preorder : PreOrder seq_le.
Proof.
  split.
  - intros w. unfold seq_le. lia.
  - intros w1 w2 w3. unfold seq_le. lia.
Qed.

Ltac seq_prim := run_prim; unfold seq_le; cbn; repeat case_match; lia.

Lemma get_connection_seq_le : preserves seq_le get_connection.
Proof. seq_prim. Qed.
Lemma cursor_seq_le c : preserves seq_le (cursor c).
Proof. seq_prim. Qed.
Lemma execute_query_seq_le {A} c (q : Tables -> A) :
  preserves seq_le (execute_query c q).
Proof. seq_prim. Qed.
Lemma execute_insert_seq_le c f : preserves seq_le (execute_insert c f).
Proof. seq_prim. Qed.
Lemma nextval_seq_le c s : preserves seq_le (nextval c s).
Proof. seq_prim. Qed.
Lemma commit_seq_le c : preserves seq_le (commit c).
Proof. seq_prim. Qed.
Lemma rollback_seq_le c : preserves seq_le (rollback c).
Proof. seq_prim. Qed.
Lemma cursor_close_seq_le c : preserves seq_le (cursor_close c).
Proof. seq_prim. Qed.
Lemma close_seq_le c : preserves seq_le (close c).
Proof. seq_prim. Qed.
Lemma print_seq_le msg e : preserves seq_le (print msg e).
Proof. seq_prim. Qed.
Lemma _generate_qr_for_mac_seq_le mac id :
  preserves seq_le (_generate_qr_for_mac mac id).
Proof. seq_prim. Qed.

#[local] Hint Resolve get_connection_seq_le cursor_seq_le execute_query_seq_le
  execute_insert_seq_le nextval_seq_le commit_seq_le rollback_seq_le
  cursor_close_seq_le close_seq_le print_seq_le _generate_qr_for_mac_seq_le
  : frame.

Ltac frame_run :=
  unfold register_device_with_order, intake_transaction, resolve_customer;
  repeat first
    [ solve [auto with frame]
    | apply preserves_ret; preorder
    | apply preserves_raise; preorder
    | apply preserves_lift; preorder
    | apply preserves_bind; preorder
    | apply preserves_try_except; preorder
    | apply preserves_try_finally; preorder
    | match goal with
      | |- forall _, _ => intro
      | |- preserves _ (match ?x with _ => _ end) => destruct x
      | |- preserves _ (if ?x then _ else _) => destruct x
      end ].

Lemma register_device_with_order_seq_le form_data user :
  preserves seq_le (register_device_with_order form_data user).
Proof. frame_run. Qed.

Lemma NoDup_snoc_fresh (l : list Z) n :
  NoDup l -> Forall (fun k => k < n) l -> NoDup (l ++ [n]).
Proof.
  intros Hnd Hlt. apply NoDup_app. split; [exact Hnd|]. split.
  - intros x Hx Hn. apply list_elem_of_singleton in Hn. subst x.
    rewrite Forall_forall in Hlt. specialize (Hlt n Hx). lia.
  - apply NoDup_singleton.
Qed.

Lemma Forall_lt_weaken (l : list Z) n m :
  Forall (fun k => k < n) l -> n <= m -> Forall (fun k => k < m) l.
Proof. intros H Hle. eapply Forall_impl; [exact H|]. cbn. intros. lia. Qed.

(** X1: the surrogate keys stay unique.  If the customer, order and device
    keys of the store are pairwise distinct and below the next value of
    their sequences, they still are after an intake, whatever its form, its
    caller, the failures it meets and its outcome; and an intake that
    returns has used keys that were in no row before. *)
Theorem intake_keeps_keys_unique form_data user w o w' :
  keys_ok w ->
  register_device_with_order form_data user w = (o, w') ->
  keys_ok w' /\
  (forall r, o = Returns r ->
     ~ In (out_device_id r) (map d_DeviceID (Device_t (db w))) /\
     In (out_device_id r) (map d_DeviceID (Device_t (db w')))).
Proof.
  intros (Hc & Ho & Hd & Hcl & Hol & Hdl) H.
  pose proof (register_device_with_order_seq_le _ _ _ _ _ H) as (Sc & So & Sd).
  destruct o as [r|e].
  - apply register_device_with_order_returns in H
      as (L & emp_no & _ & _ & -> & Hdb & Nc & No & Nd & _).
    split.
    + unfold keys_ok.
      rewrite Hdb, tables_after_Customer_t, tables_after_RecyclingOrder_t,
        tables_after_Device_t, !map_app. cbn [map].
      cbn [r_OrdNo new_RecyclingOrder d_DeviceID new_Device].
      rewrite No, Nd, Nc.
      destruct (existing_customer L (db w)); rewrite ?map_app; cbn [map];
        cbn [c_CustNo new_Customer];
        repeat split;
        try (apply NoDup_snoc_fresh; assumption);
        try assumption;
        try (apply Forall_app; split;
             [eapply Forall_lt_weaken; [eassumption | lia]
             | repeat constructor; lia]).
    + intros r' Hr. inversion Hr; subst r'. cbn [out_device_id]. split.
      * intros Hin. rewrite List.Forall_forall in Hdl.
        specialize (Hdl _ Hin). lia.
      * rewrite Hdb, tables_after_Device_t, map_app. apply in_or_app.
        right. left. reflexivity.
  - pose proof (register_device_with_order_on_raise _ _ _ _ _ H) as Hdb.
    unfold same_db in Hdb. split; [|intros r' Hr; discriminate].
    unfold keys_ok. rewrite Hdb.
    repeat split; try assumption;
      (eapply Forall_lt_weaken; [eassumption | assumption]).
Qed.

(** Invariants of a store that is given in full are checked by evaluation. *)
Ltac check_store :=
  vm_compute;
  repeat match goal with
         | |- _ /\ _ => split
         | |- NoDup [] => apply NoDup_nil
         | |- NoDup (_ :: _) => apply NoDup_cons
         | |- Forall _ [] => apply Forall_nil
         | |- Forall _ (_ :: _) => apply Forall_cons
         | |- _ = _ => reflexivity
         | |- _ \/ _ => solve [auto 10]
         | |- True => exact I
         | |- ~ _ => let H := fresh in
                     intros H; try apply list_elem_of_In in H; cbn in H;
                     solve [intuition discriminate]
         end.

Lemma intake_keeps_keys_unique_witness :
  let run := register_device_with_order form_second "tech01" world1 in
  keys_ok (snd run) /\
  (forall r, fst run = Returns r ->
     ~ In (out_device_id r) (map d_DeviceID (Device_t (db world1))) /\
     In (out_device_id r) (map d_DeviceID (Device_t (db (snd run))))).
Proof.
  apply (intake_keeps_keys_unique form_second "tech01" world1).
  - check_store.
  - apply surjective_pairing.
Defined.

(** ** References between the rows *)

Lemma select_EmpNo_In user T emp_no :
  select_EmpNo user T = Some emp_no -> In emp_no (map e_EmpNo (Employee_t T)).
Proof.
  unfold select_EmpNo. destruct (find _ (Employee_t T)) as [e|] eqn:F;
    [|discriminate].
  intros H. inversion H. apply find_some in F as [F _].
  apply in_map. exact F.
Qed.

Lemma existing_customer_In L T k :
  existing_customer L T = Some k -> In k (map c_CustNo (Customer_t T)).
Proof.
  unfold existing_customer, select_CustNo.
  destruct (PyStr.is_empty _); [discriminate|].
  destruct (find _ (Customer_t T)) as [c|] eqn:F; [|discriminate].
  intros H. inversion H. apply find_some in F as [F _].
  apply in_map. exact F.
Qed.

(** The key of the customer of an intake is the key of a Customer row of
    the tables that the intake commits. *)
Lemma customer_key_In L emp_no w :
  In (customer_key L w) (map c_CustNo (Customer_t (tables_after L emp_no w))).
Proof.
  rewrite tables_after_Customer_t. unfold customer_key.
  destruct (existing_customer L (db w)) as [k|] eqn:E; cbn.
  - eapply existing_customer_In, E.
  - rewrite map_app. apply in_or_app. right. left. reflexivity.
Qed.

Lemma Customer_t_grows L emp_no w k :
  In k (map c_CustNo (Customer_t (db w))) ->
  In k (map c_CustNo (Customer_t (tables_after L emp_no w))).
Proof.
  rewrite tables_after_Customer_t.
  destruct (existing_customer L (db w)); [auto|].
  rewrite map_app. intros H. apply in_or_app. left. exact H.
Qed.

(** X2: referential integrity is kept.  If every order line, order and
    device of the store refers to rows that exist, the same holds after an
    intake, whatever its outcome: the rows that an intake commits refer to
    the employee it found, to the customer it reused or created, and to the
    order and the device it created. *)
Theorem intake_keeps_references form_data user w o w' :
  referential (db w) ->
  register_device_with_order form_data user w = (o, w') ->
  referential (db w').
Proof.
  intros (Hol & Hr & Hd) H. destruct o as [r|e].
  - apply register_device_with_order_returns in H
      as (L & emp_no & _ & He & _ & Hdb & _).
    apply select_EmpNo_In in He.
    unfold referential.
    rewrite Hdb, tables_after_OrdLine_t, tables_after_RecyclingOrder_t,
      tables_after_Device_t, tables_after_Employee_t, !map_app.
    rewrite !Forall_app. repeat split.
    + eapply Forall_impl; [exact Hol|]. cbn. intros ol [H1 H2].
      split; apply in_or_app; left; assumption.
    + repeat constructor; cbn; apply in_or_app; right; left; reflexivity.
    + eapply Forall_impl; [exact Hr|]. cbn. intros r0 [H1 H2].
      split; [apply (Customer_t_grows L emp_no w), H1 | exact H2].
    + repeat constructor; cbn; [apply (customer_key_In L emp_no w) | exact He].
    + eapply Forall_impl; [exact Hd|]. cbn. intros d0 H1.
      apply (Customer_t_grows L emp_no w), H1.
    + repeat constructor. cbn. apply (customer_key_In L emp_no w).
  - pose proof (register_device_with_order_on_raise _ _ _ _ _ H) as Hdb.
    unfold same_db in Hdb. rewrite Hdb. repeat split; assumption.
Qed.

Lemma intake_keeps_references_witness :
  let run := register_device_with_order form_second "tech01" world1 in
  referential (db (snd run)).
Proof.
  apply (intake_keeps_references form_second "tech01" world1
           (fst (register_device_with_order form_second "tech01" world1))).
  - check_store.
  - apply surjective_pairing.
Defined.

(** X3: one line per device.  On a store whose keys are unique and whose
    references hold, if every device is on an order line, no device is on
    two lines and no two lines share their order and line number, then the
    same holds after an intake, whatever its outcome: an intake that
    returns has put its new device on exactly one new line, number 1 of its
    new order. *)
Theorem intake_keeps_one_line_per_device form_data user w o w' :
  keys_ok w ->
  referential (db w) ->
  lines_ok (db w) ->
  register_device_with_order form_data user w = (o, w') ->
  lines_ok (db w').
Proof.
  intros (_ & _ & _ & _ & Kol & Kdl) (Rol & _ & _) (Ld & Lp & Lo) H.
  destruct o as [r|e].
  - apply register_device_with_order_returns in H
      as (L & emp_no & _ & _ & _ & Hdb & _).
    rewrite List.Forall_forall in Rol, Kol, Kdl.
    unfold lines_ok.
    rewrite Hdb, tables_after_OrdLine_t, tables_after_Device_t, !map_app.
    cbn [map ol_DeviceID ol_OrdNo ol_LineNo new_OrdLine d_DeviceID new_Device].
    repeat split.
    + apply NoDup_snoc_fresh; [exact Ld|].
      apply List.Forall_forall. intros k Hk.
      apply in_map_iff in Hk as (ol & <- & Hol).
      apply Kdl. apply (Rol ol Hol).
    + apply NoDup_app. split; [exact Lp|]. split; [|apply NoDup_singleton].
      intros p Hp Hn. apply list_elem_of_singleton in Hn. subst p.
      apply list_elem_of_In, in_map_iff in Hp as (ol & Hp & Hol).
      inversion Hp as [[Ho Hl]].
      pose proof (Kol _ (proj1 (Rol ol Hol))). lia.
    + apply Forall_app. split.
      * eapply Forall_impl; [exact Lo|]. cbn. intros d Hd.
        apply in_or_app. left. exact Hd.
      * repeat constructor. cbn. apply in_or_app. right. left. reflexivity.
  - pose proof (register_device_with_order_on_raise _ _ _ _ _ H) as Hdb.
    unfold same_db in Hdb. unfold lines_ok. rewrite Hdb.
    repeat split; assumption.
Qed.

Lemma intake_keeps_one_line_per_device_witness :
  let run := register_device_with_order form_second "tech01" world1 in
  lines_ok (db (snd run)).
Proof.
  apply (intake_keeps_one_line_per_device form_second "tech01" world1
           (fst (register_device_with_order form_second "tech01" world1))).
  - check_store.
  - check_store.
  - check_store.
  - apply surjective_pairing.
Defined.

(** ** One customer per email *)

Lemma sql_eq_false_l a b : a <> b -> sql_eq a b = false.
Proof.
  intros H. destruct (sql_eq a b) eqn:E; [|reflexivity].
  apply sql_eq_true in E as [E _]. contradiction.
Qed.

Lemma is_empty_inv s : PyStr.is_empty s = true -> s = "".
Proof. destruct s; [reflexivity | discriminate]. Qed.

(** X4: at most one customer per email.  If no email, the empty one apart,
    is that of two Customer rows, the same holds after an intake, whatever
    its outcome: the intake creates a customer with a non-empty email only
    when no row has that email yet. *)
Theorem intake_keeps_one_customer_per_email form_data user w o w' :
  one_per_email (db w) ->
  register_device_with_order form_data user w = (o, w') ->
  one_per_email (db w').
Proof.
  intros Inv H. destruct o as [r|e].
  - apply register_device_with_order_returns in H
      as (L & emp_no & _ & _ & _ & Hdb & _).
    intros email Hne. specialize (Inv email Hne).
    unfold customers_with_email in *.
    rewrite Hdb, tables_after_Customer_t.
    unfold existing_customer, select_CustNo.
    destruct (PyStr.is_empty (customer_email L)) eqn:Em.
    + rewrite List.filter_app, length_app. cbn. unfold has_email at 2. cbn.
      apply is_empty_inv in Em. rewrite Em. cbn. lia.
    + change (fun c => sql_eq (c_CustEmail c) (customer_email L))
        with (has_email (customer_email L)).
      destruct (find (has_email (customer_email L)) (Customer_t (db w)))
        as [c|] eqn:F; cbn [option_map]; [exact Inv|].
      rewrite List.filter_app, length_app. cbn. unfold has_email at 2. cbn.
      destruct (String.eqb (customer_email L) email) eqn:Eq.
      * apply String.eqb_eq in Eq. subst email.
        rewrite (find_none_filter _ _ F).
        destruct (sql_eq _ _); cbn; lia.
      * apply String.eqb_neq in Eq. rewrite (sql_eq_false_l _ _ Eq). cbn. lia.
  - pose proof (register_device_with_order_on_raise _ _ _ _ _ H) as Hdb.
    unfold same_db in Hdb. rewrite Hdb. exact Inv.
Qed.

Lemma intake_keeps_one_customer_per_email_witness :
  let run := register_device_with_order form_second "tech01" world1 in
  one_per_email (db (snd run)).
Proof.
  apply (intake_keeps_one_customer_per_email form_second "tech01" world1
           (fst (register_device_with_order form_second "tech01" world1))).
  - intros email _. unfold customers_with_email.
    set (l := Customer_t (db world1)). vm_compute in l. subst l.
    cbn. destruct (has_email email _); cbn; lia.
  - apply surjective_pairing.
Defined.

(** ** The unknown caller *)

(** The [try] block of an intake whose caller has no Employee row stops at
    its first statement. *)
Lemma intake_transaction_unknown L user c w T :
  sessions w !! c = Some T ->
  select_EmpNo user T = None ->
  intake_transaction L user c c w =
    (Raises (if hd false (faults w) then DatabaseError
             else NoEmployeeFound user),
     tick w).
Proof.
  intros HT He. unfold intake_transaction, execute_query, external, bind, raise.
  destruct (hd false (faults w)); [reflexivity|].
  cbn. rewrite HT, He. reflexivity.
Qed.

(** X5: the unknown caller.  An intake whose caller has no Employee row
    raises, whatever the form and whatever failures are scheduled, and it
    has then drawn no value from any sequence, written no QR image and left
    the committed tables as they were; when no failure is scheduled the
    exception is the "No Employee found" one, and it has been printed. *)
Theorem unknown_caller_is_rejected form_data user w :
  select_EmpNo user (db w) = None ->
  exists e w',
    register_device_with_order form_data user w = (Raises e, w') /\
    untouched w w' /\
    (no_faults w ->
     e = NoEmployeeFound user /\
     console w' =
       (console w ++ [("Error in register_device_with_order:",
                       NoEmployeeFound user)])%list).
Proof.
  intros He. unfold register_device_with_order.
  destruct (normalize_form_returns form_data) as [L HL].
  unfold bind at 1, lift. rewrite HL.
  destruct (hd false (faults w)) eqn:H0.
  { assert (get_connection w = (Raises DatabaseError, tick w)) as G
      by (unfold get_connection, external, bind; rewrite H0; reflexivity).
    unfold bind at 1. rewrite G.
    eexists _, _. split; [reflexivity|]. split; [repeat split|].
    intros Hf. apply no_faults_step in Hf as [Hf _]. congruence. }
  assert (get_connection w = (Returns (next_conn w), connected w)) as G
    by (unfold get_connection, external, bind; rewrite H0; reflexivity).
  unfold bind at 1. rewrite G.
  assert (cursor (next_conn w) (connected w)
          = (Returns (next_conn w), connected w)) as C
    by (unfold cursor; cbn; rewrite lookup_insert_eq; reflexivity).
  unfold bind at 1. rewrite C.
  unfold try_finally, try_except.
  rewrite (intake_transaction_unknown L user (next_conn w) (connected w) (db w))
    by (try exact He; cbn; apply lookup_insert_eq).
  unfold rollback, print, raise, cursor_close, close, bind, external, ret.
  cbn. rewrite lookup_insert_eq.
  destruct (hd false (tail (faults w))) eqn:H1;
    destruct (hd false (tail (tail (faults w)))) eqn:H2; cbn;
    (eexists _, _; split; [reflexivity|]; split; [repeat split|]);
    intros Hf;
    apply no_faults_step in Hf as [_ Hf];
    apply no_faults_step in Hf as [Hf1 Hf];
    apply no_faults_step in Hf as [Hf2 _];
    cbn in Hf1, Hf2; try congruence.
  split; reflexivity.
Qed.

Lemma unknown_caller_is_rejected_witness :
  exists e w',
    register_device_with_order form_first "nobody" world0 = (Raises e, w') /\
    untouched world0 w' /\
    (no_faults world0 ->
     e = NoEmployeeFound "nobody" /\
     console w' =
       (console world0 ++ [("Error in register_device_with_order:",
                            NoEmployeeFound "nobody")])%list).
Proof.
  apply (unknown_caller_is_rejected form_first "nobody" world0).
  vm_compute. reflexivity.
Defined.

(** ** The QR image *)

#[local] Instance same_qr_preorder : PreOrder same_qr.
Proof. split; unfold same_qr; [intros w | intros w1 w2 w3]; congruence. Qed.

Lemma execute_query_same_qr {A} c (q : Tables -> A) :
  preserves same_qr (execute_query c q).
Proof. run_prim; reflexivity. Qed.
Lemma execute_insert_same_qr c f : preserves same_qr (execute_insert c f).
Proof. run_prim; reflexivity. Qed.
Lemma nextval_same_qr c s : preserves same_qr (nextval c s).
Proof. run_prim; unfold same_qr; destruct s; reflexivity. Qed.

#[local] Hint Resolve execute_query_same_qr execute_insert_same_qr
  nextval_same_qr : frame.

Lemma resolve_customer_same_qr L c : preserves same_qr (resolve_customer L c).
Proof. unfold resolve_customer. frame_cases. Qed.

Lemma intake_transaction_qr L user c w r w' :
  sessions w !! c = Some (db w) ->
  intake_transaction L user c c w = (Returns r, w') ->
  qr_codes w' =
    <[PyStr.str_of_Z (next_device w) ++ ".png" := BASE_TRACK_URL w ++ mac_addr L]>
      (qr_codes w).
Proof.
  intros HT H. unfold intake_transaction in H.
  step H.
  destruct (select_EmpNo user (db w)) as [emp_no|]; [|discriminate].
  apply bind_returns in H as (k & w1 & S & H).
  pose proof (resolve_customer_same_qr _ _ _ _ _ S) as Hq.
  eapply resolve_customer_returns in S as (Hk & Hs & Hc & Hdb & Ho & Hd & Hy & Hb & Hn);
    [|cbn; exact HT].
  unfold same_qr in Hq. cbn in Hq.
  repeat step H. finish H. rewrite Hd, Hb, Hq. reflexivity.
Qed.

Lemma register_device_with_order_qr form_data user w r w' L :
  normalize_form form_data = Returns L ->
  register_device_with_order form_data user w = (Returns r, w') ->
  qr_codes w' =
    <[PyStr.str_of_Z (next_device w) ++ ".png" := BASE_TRACK_URL w ++ mac_addr L]>
      (qr_codes w).
Proof.
  intros HL H. unfold register_device_with_order in H.
  apply bind_returns in H as (L' & w0 & S & H).
  apply lift_returns in S as [HL' ->].
  rewrite HL in HL'. inversion HL'; subst L'.
  step H. step H.
  apply try_finally_returns in H as (w1 & u & H & F).
  apply try_except_returns in H; [|intros; apply intake_handler_raises].
  apply intake_transaction_qr in H; [|cbn; apply lookup_insert_eq].
  apply bind_returns in F as (u1 & w2 & F1 & F).
  inversion F1; subst w2. apply close_returns in F as ->.
  cbn in *. exact H.
Qed.

(** X6: the tracking code.  An intake that returns has written one image
    into the QR folder, under the name made of the new device key and
    ".png"; the image encodes the configured base URL followed by the
    trimmed MAC address; that name is the one it returns and the one it has
    stored in the Device row of that key. *)
Theorem intake_binds_tracking_code form_data user w r w' :
  register_device_with_order form_data user w = (Returns r, w') ->
  out_qr_filename r = PyStr.str_of_Z (out_device_id r) ++ ".png" /\
  qr_codes w' !! out_qr_filename r = Some (BASE_TRACK_URL w ++ out_mac_addr r) /\
  (forall f, f <> out_qr_filename r -> qr_codes w' !! f = qr_codes w !! f) /\
  exists d,
    Device_t (db w') = (Device_t (db w) ++ [d])%list /\
    d_DeviceID d = out_device_id r /\
    d_QRCode d = out_qr_filename r /\
    d_IotMacAddr d = out_mac_addr r.
Proof.
  intros H. pose proof H as H'.
  apply register_device_with_order_returns in H'
    as (L & emp_no & HL & _ & -> & Hdb & _).
  pose proof (register_device_with_order_qr _ _ _ _ _ _ HL H) as Hq.
  cbn [out_qr_filename out_device_id out_mac_addr].
  split; [reflexivity|]. rewrite Hq.
  split; [apply lookup_insert_eq|].
  split; [intros f Hf; apply lookup_insert_ne; congruence|].
  eexists. split; [rewrite Hdb; apply tables_after_Device_t|].
  repeat split.
Qed.

Lemma intake_binds_tracking_code_witness :
  let run := register_device_with_order form_first "tech01" world0 in
  let r := result_of (fst run) in
  out_qr_filename r = "1000.png" /\
  out_qr_filename r = PyStr.str_of_Z (out_device_id r) ++ ".png" /\
  qr_codes (snd run) !! out_qr_filename r
    = Some (BASE_TRACK_URL world0 ++ out_mac_addr r) /\
  (forall f, f <> out_qr_filename r ->
     qr_codes (snd run) !! f = qr_codes world0 !! f) /\
  exists d,
    Device_t (db (snd run)) = (Device_t (db world0) ++ [d])%list /\
    d_DeviceID d = out_device_id r /\
    d_QRCode d = out_qr_filename r /\
    d_IotMacAddr d = out_mac_addr r.
Proof.
  intros run r. split; [vm_compute; reflexivity|].
  apply (intake_binds_tracking_code form_first "tech01" world0).
  vm_compute. reflexivity.
Defined.

(** ** The lookup writes nothing *)

(** X7: the lookup is read-only.  Whatever the MAC address, the store and
    the failures scheduled, a lookup leaves the committed tables, the three
    sequences and the QR folder exactly as they were. *)
Theorem lookup_is_read_only mac w :
  untouched w (snd (get_device_by_mac mac w)).
Proof.
  unfold get_device_by_mac.
  destruct (PyStr.is_empty _); [repeat split|].
  unfold try_except. rewrite lookup_body_run.
  destruct (hd false (faults w)); [repeat split|].
  destruct (hd false (faults (connected w))); repeat split.
Qed.

(** ** The name of the customer *)

Lemma append_not_empty a b : PyStr.is_empty a = false -> PyStr.is_empty (a ++ b) = false.
Proof. destruct a; [discriminate | reflexivity]. Qed.

Lemma join_not_empty sep t ts :
  PyStr.is_empty t = false -> PyStr.is_empty (PyStr.join sep (t :: ts)) = false.
Proof.
  intros H. cbn. destruct ts; [exact H|]. apply append_not_empty, H.
Qed.

(** The customer row that an intake creates, when it creates one. *)
Lemma new_customer_of_intake form_data user w r w' :
  register_device_with_order form_data user w = (Returns r, w') ->
  Customer_t (db w') = Customer_t (db w) \/
  exists c,
    Customer_t (db w') = (Customer_t (db w) ++ [c])%list /\
    c_CustNo c = next_customer w /\
    c_CustEmail c = PyStr.strip (form_get form_data "customer_email" "") /\
    (let p := _split_customer_name
                (Some (PyStr.strip (form_get form_data "customer_name" ""))) in
     c_CustFirstName c = (if PyStr.is_empty (fst p) then "Unknown" else fst p) /\
     c_CustLastName c = (if PyStr.is_empty (snd p) then "Customer" else snd p)).
Proof.
  intros H.
  apply register_device_with_order_returns in H
    as (L & emp_no & HL & _ & _ & Hdb & _).
  apply normalize_form_fields in HL as (_ & Hm & _ & _ & _ & _ & Hf & Hl).
  rewrite Hdb, tables_after_Customer_t.
  destruct (existing_customer L (db w)); [left; reflexivity|].
  right. eexists. split; [reflexivity|]. cbn.
  repeat split; assumption.
Qed.

(** X8: the customer without a name.  When the customer name is absent
    from the form or blank, an intake that returns and creates the Customer
    row gives it the first name "Unknown" and the last name "Customer". *)
Theorem blank_name_gets_placeholder form_data user w r w' :
  PyStr.strip (form_get form_data "customer_name" "") = "" ->
  register_device_with_order form_data user w = (Returns r, w') ->
  Customer_t (db w') = Customer_t (db w) \/
  exists c,
    Customer_t (db w') = (Customer_t (db w) ++ [c])%list /\
    c_CustFirstName c = "Unknown" /\ c_CustLastName c = "Customer".
Proof.
  intros Hn H.
  apply new_customer_of_intake in H as [H | (c & Hc & _ & _ & Hf & Hl)];
    [left; exact H|].
  right. exists c. split; [exact Hc|].
  rewrite Hn in Hf, Hl. cbn in Hf, Hl. split; assumption.
Qed.

Lemma blank_name_gets_placeholder_witness :
  let run := register_device_with_order form_nameless "tech01" world0 in
  stored_names (snd run) = [("Unknown", "Customer")] /\
  (Customer_t (db (snd run)) = Customer_t (db world0) \/
   exists c,
     Customer_t (db (snd run)) = (Customer_t (db world0) ++ [c])%list /\
     c_CustFirstName c = "Unknown" /\ c_CustLastName c = "Customer").
Proof.
  intros run. split; [vm_compute; reflexivity|].
  apply (blank_name_gets_placeholder form_nameless "tech01" world0
           (result_of (fst run))).
  - vm_compute. reflexivity.
  - vm_compute. reflexivity.
Defined.

(** X9: the customer with several names.  When the customer name has two
    tokens or more, an intake that returns and creates the Customer row
    stores the first token as first name and the other tokens, joined by
    single spaces, as last name: first and last name put together with one
    space are the name of the form with every run of white space replaced
    by one space and none at the ends. *)
Theorem long_name_is_split_and_respaced form_data user w r w' t t2 ts :
  PyStr.split (form_get form_data "customer_name" "") = t :: t2 :: ts ->
  register_device_with_order form_data user w = (Returns r, w') ->
  Customer_t (db w') = Customer_t (db w) \/
  exists c,
    Customer_t (db w') = (Customer_t (db w) ++ [c])%list /\
    c_CustFirstName c = t /\
    c_CustLastName c = PyStr.join " " (t2 :: ts) /\
    c_CustFirstName c ++ " " ++ c_CustLastName c
      = PyStr.join " " (PyStr.split (form_get form_data "customer_name" "")).
Proof.
  intros Hn H.
  apply new_customer_of_intake in H as [H | (c & Hc & _ & _ & Hf & Hl)];
    [left; exact H|].
  right. exists c. split; [exact Hc|].
  unfold _split_customer_name in Hf, Hl. cbn [PyStr.or_empty] in Hf, Hl.
  rewrite !split_strip, Hn in Hf, Hl. cbn [fst snd] in Hf, Hl.
  pose proof (split_from_tokens (form_get form_data "customer_name" "")
                EmptyString) as Htok.
  fold (PyStr.split (form_get form_data "customer_name" "")) in Htok.
  rewrite Hn in Htok.
  inversion Htok as [|? ? Ht Htok']; subst.
  inversion Htok' as [|? ? Ht2 _]; subst.
  rewrite Ht in Hf. rewrite (join_not_empty " " t2 ts Ht2) in Hl.
  rewrite Hf, Hl, Hn. repeat split.
Qed.

Lemma long_name_is_split_and_respaced_witness :
  let run := register_device_with_order form_full "tech01" world0 in
  stored_names (snd run) = [("Ada", "Maria Lovelace")] /\
  (Customer_t (db (snd run)) = Customer_t (db world0) \/
   exists c,
     Customer_t (db (snd run)) = (Customer_t (db world0) ++ [c])%list /\
     c_CustFirstName c = "Ada" /\
     c_CustLastName c = PyStr.join " " ["Maria"; "Lovelace"] /\
     c_CustFirstName c ++ " " ++ c_CustLastName c
       = PyStr.join " " (PyStr.split (form_get form_full "customer_name" ""))).
Proof.
  intros run. split; [vm_compute; reflexivity|].
  apply (long_name_is_split_and_respaced form_full "tech01" world0
           (result_of (fst run))).
  - vm_compute. reflexivity.
  - vm_compute. reflexivity.
Defined.

(** ** From the intake to the lookup *)












Example intake_then_lookup_example :
  let w' := snd (register_device_with_order form_full "tech01" world1) in
  option_map
    (fun v => (v_type v, v_make v, v_model v, v_serial_no v, v_hazard_class v,
               v_weight_kg v, v_status v, v_dropoff_site v, v_received_date v,
               v_customer_name v))
    (result_view (fst (get_device_by_mac (Some "00:1b:44:11:3a:b7") w')))
  = Some ("Phone", "Nokia", "3310", "SN-1", "Low", 0.25%float, "Received",
          "North Depot", "2024-03-09", "Ada Maria Lovelace").
Proof. vm_compute. reflexivity. Qed.

(* ===================================================================== *)
(** * The routes *)
(* ===================================================================== *)

(** ** The intake route *)

(** X11: the intake route.  [employee_intake] always answers, never
    raises, and leaves open no connection of its own.  Without a logged-in
    employee it redirects to the login page, and on GET it shows the empty
    form, in both cases without touching the world or the session.  On POST
    it redirects to the QR page of the new device exactly when
    [register_device_with_order] returned, and the session then holds the
    trimmed MAC address and the tracking URL; when the intake raised, it
    shows the one generic error message, with the committed tables and the
    session as they were. *)
Theorem employee_intake_answers request session w :
  exists resp s' w',
    employee_intake request session w = (Returns (resp, s'), w') /\
    (forall c, is_Some (sessions w' !! c) -> is_Some (sessions w !! c)) /\
    match resp with
    | redirect url_employee_login =>
        session !! "employee_username" = None /\ s' = session /\ w' = w
    | employee_intake_html None =>
        is_Some (session !! "employee_username") /\ method request = GET /\
        s' = session /\ w' = w
    | employee_intake_html (Some message) =>
        message = ("error",
                   "There was a problem saving this device. "
                   ++ "Please try again or contact the system administrator.") /\
        method request = POST /\ s' = session /\ db w' = db w /\
        exists u e w1,
          session !! "employee_username" = Some u /\
          register_device_with_order (form request) u w = (Raises e, w1)
    | redirect (url_employee_qr_page device_id) =>
        method request = POST /\
        exists u r,
          session !! "employee_username" = Some u /\
          register_device_with_order (form request) u w = (Returns r, w') /\
          device_id = out_device_id r /\
          s' = <["last_track_url" := BASE_TRACK_URL w ++ out_mac_addr r]>
                 (<["last_mac" := out_mac_addr r]> session)
    | _ => False
    end.
Proof.
  unfold employee_intake.
  destruct (session !! "employee_username") as [u|] eqn:Hu.
  2:{ eexists _, _, _. split; [reflexivity|]. split; [auto|]. auto. }
  destruct (method request) eqn:Hm.
  { eexists _, _, _. split; [reflexivity|]. split; [auto|].
    cbn. split; [eauto|]. auto. }
  unfold try_except, bind at 1.
  destruct (register_device_with_order (form request) u w) as [[r|e] w1] eqn:R.
  - eexists _, _, _. split; [reflexivity|]. split.
    + apply (register_device_with_order_releases _ _ _ _ _ R).
    + cbn. split; [reflexivity|]. exists u, r.
      pose proof R as R'.
      apply register_device_with_order_returns in R'
        as (L & emp_no & _ & _ & _ & _ & _ & _ & _ & _ & Hb).
      rewrite Hb. auto.
  - unfold print, bind, ret. cbn.
    eexists _, _, _. split; [reflexivity|]. split.
    + cbn. apply (register_device_with_order_releases _ _ _ _ _ R).
    + cbn. repeat split.
      * apply (register_device_with_order_on_raise _ _ _ _ _ R).
      * eauto.
Qed.

Lemma append_not_empty_r a b :
  PyStr.is_empty b = false -> PyStr.is_empty (a ++ b) = false.
Proof. intros H. induction a; [exact H | reflexivity]. Qed.

Lemma employee_intake_redirect request session w device_id s' w' :
  employee_intake request session w
    = (Returns (redirect (url_employee_qr_page device_id), s'), w') ->
  exists u r,
    register_device_with_order (form request) u w = (Returns r, w') /\
    device_id = out_device_id r /\
    s' = <["last_track_url" := BASE_TRACK_URL w ++ out_mac_addr r]>
           (<["last_mac" := out_mac_addr r]> session).
Proof.
  unfold employee_intake.
  destruct (session !! "employee_username") as [u|]; [|intros H; inversion H].
  destruct (method request); [intros H; inversion H|].
  unfold try_except, bind at 1.
  destruct (register_device_with_order (form request) u w) as [[r|e] w1] eqn:R.
  - intros H. inversion H; subst. exists u, r.
    pose proof R as R'.
    apply register_device_with_order_returns in R'
      as (L & emp_no & _ & _ & _ & _ & _ & _ & _ & _ & Hb).
    rewrite Hb. auto.
  - unfold print, bind, ret. cbn. intros H. inversion H.
Qed.

(** X12: from the intake form to the QR page.  When the intake route has
    redirected to the QR page of a device whose trimmed MAC address is not
    empty, that page, asked with the device key of the redirect and the
    session that the route left, shows that MAC address, the tracking URL
    (base URL and MAC address) and the file name made of the key and ".png";
    the image of that name exists in the QR folder and encodes that URL,
    and the Device row of that key names it. *)
Theorem intake_redirect_shows_tracking_code request session w device_id s' w' :
  employee_intake request session w
    = (Returns (redirect (url_employee_qr_page device_id), s'), w') ->
  PyStr.strip (form_get (form request) "mac_address" "") <> "" ->
  let mac := PyStr.strip (form_get (form request) "mac_address" "") in
  let qr_filename := PyStr.str_of_Z device_id ++ ".png" in
  employee_qr_page device_id s'
    = employee_qr_html device_id mac qr_filename (BASE_TRACK_URL w ++ mac) /\
  qr_codes w' !! qr_filename = Some (BASE_TRACK_URL w ++ mac) /\
  exists d, In d (Device_t (db w')) /\ d_DeviceID d = device_id /\
            d_QRCode d = qr_filename /\ d_IotMacAddr d = mac.
Proof.
  intros H Hne mac qr_filename. subst mac qr_filename.
  apply employee_intake_redirect in H as (u & r & R & -> & ->).
  pose proof R as R'.
  apply register_device_with_order_returns in R'
    as (L & emp_no & HL & _ & -> & Hdb & _).
  pose proof (register_device_with_order_qr _ _ _ _ _ _ HL R) as Hq.
  apply normalize_form_fields in HL as (Hm & _).
  cbn [out_mac_addr out_device_id] in *. rewrite Hm.
  split; [|split].
  - unfold employee_qr_page.
    rewrite lookup_insert_ne, !lookup_insert_eq by discriminate.
    rewrite (is_empty_false _ Hne), (append_not_empty_r _ _ (is_empty_false _ Hne)).
    reflexivity.
  - rewrite Hq, Hm. apply lookup_insert_eq.
  - eexists. split.
    + rewrite Hdb, tables_after_Device_t. apply in_or_app. right. left. reflexivity.
    + cbn. auto.
Qed.

Lemma intake_redirect_shows_tracking_code_witness :
  let run := employee_intake request_first session_tech01 world0 in
  let s' := <["last_track_url" := "http://localhost:5000/track/9a:4b:7c:12:ff:09"]>
              (<["last_mac" := "9a:4b:7c:12:ff:09"]> session_tech01) in
  fst run = Returns (redirect (url_employee_qr_page 1000), s') /\
  employee_qr_page 1000 s'
    = employee_qr_html 1000 "9a:4b:7c:12:ff:09" "1000.png"
        "http://localhost:5000/track/9a:4b:7c:12:ff:09" /\
  qr_codes (snd run) !! "1000.png"
    = Some "http://localhost:5000/track/9a:4b:7c:12:ff:09" /\
  exists d, In d (Device_t (db (snd run))) /\ d_DeviceID d = 1000 /\
            d_QRCode d = "1000.png" /\ d_IotMacAddr d = "9a:4b:7c:12:ff:09".
Proof.
  intros run s'. split; [vm_compute; reflexivity|].
  apply (intake_redirect_shows_tracking_code request_first session_tech01
           world0 1000 s' (snd run)).
  - vm_compute. reflexivity.
  - vm_compute. discriminate.
Defined.

(** X13: the QR page of a device without MAC address.  When the intake
    route has redirected to the QR page of a device whose MAC address was
    absent or blank, that page answers "No QR data found. Please record
    intake again.", although the intake was committed: the page takes the
    empty MAC address of the session for a missing one. *)
Theorem blank_mac_intake_has_no_qr_page request session w device_id s' w' :
  employee_intake request session w
    = (Returns (redirect (url_employee_qr_page device_id), s'), w') ->
  PyStr.strip (form_get (form request) "mac_address" "") = "" ->
  employee_qr_page device_id s'
    = plain_text "No QR data found. Please record intake again." /\
  exists d, In d (Device_t (db w')) /\ d_DeviceID d = device_id /\
            d_IotMacAddr d = "".
Proof.
  intros H Hmac.
  apply employee_intake_redirect in H as (u & r & R & -> & ->).
  apply register_device_with_order_returns in R
    as (L & emp_no & HL & _ & -> & Hdb & _).
  apply normalize_form_fields in HL as (Hm & _). rewrite Hmac in Hm.
  cbn [out_mac_addr out_device_id]. rewrite Hm. split.
  - unfold employee_qr_page.
    rewrite lookup_insert_ne, !lookup_insert_eq by discriminate.
    reflexivity.
  - eexists. split.
    + rewrite Hdb, tables_after_Device_t. apply in_or_app. right. left. reflexivity.
    + cbn. auto.
Qed.

Lemma blank_mac_intake_has_no_qr_page_witness :
  let run := employee_intake request_no_mac session_tech01 world0 in
  let s' := <["last_track_url" := "http://localhost:5000/track/"]>
              (<["last_mac" := ""]> session_tech01) in
  fst run = Returns (redirect (url_employee_qr_page 1000), s') /\
  employee_qr_page 1000 s'
    = plain_text "No QR data found. Please record intake again." /\
  exists d, In d (Device_t (db (snd run))) /\ d_DeviceID d = 1000 /\
            d_IotMacAddr d = "".
Proof.
  intros run s'. split; [vm_compute; reflexivity|].
  apply (blank_mac_intake_has_no_qr_page request_no_mac session_tech01
           world0 1000 s' (snd run)).
  - vm_compute. reflexivity.
  - vm_compute. reflexivity.
Defined.

(** ** Login, logout and the session *)

Lemma EMPLOYEE_USERS_names username user :
  EMPLOYEE_USERS !! username = Some user ->
  PyStr.is_empty username = false.
Proof.
  unfold EMPLOYEE_USERS. intros H.
  destruct username; [|reflexivity].
  vm_compute in H. discriminate.
Qed.

(** X14: the login.  [employee_login] redirects to the dashboard only on a
    POST whose trimmed user name is in [EMPLOYEE_USERS] with the trimmed
    password of the form; the session then holds that user name and the
    role of the user, and the dashboard shows the full name and the role of
    that user.  In every other case it shows the login page and leaves the
    session as it was, with the error message on POST and without on GET. *)
Theorem employee_login_checks_credentials request session :
  let username := PyStr.strip (form_get (form request) "username" "") in
  let given := PyStr.strip (form_get (form request) "password" "") in
  match employee_login request session with
  | (redirect url_employee_dashboard, s') =>
      method request = POST /\
      exists user,
        EMPLOYEE_USERS !! username = Some user /\ password user = given /\
        s' !! "employee_username" = Some username /\
        s' !! "employee_role" = Some (role user) /\
        (forall k, k <> "employee_username" -> k <> "employee_role" ->
           s' !! k = session !! k) /\
        employee_dashboard s' = employee_dashboard_html (full_name user) (role user)
  | (employee_login_html error, s') =>
      s' = session /\
      (method request = GET -> error = None) /\
      (method request = POST ->
       error = Some "Invalid credentials. Please try again." /\
       ~ exists user,
           EMPLOYEE_USERS !! username = Some user /\ password user = given)
  | _ => False
  end.
Proof.
  intros username given. unfold employee_login. fold username given.
  destruct (method request) eqn:Hm.
  { split; [reflexivity|]. split; [reflexivity | discriminate]. }
  destruct (EMPLOYEE_USERS !! username) as [user|] eqn:Hu.
  2:{ split; [reflexivity|]. split; [discriminate|]. intros _.
      split; [reflexivity|]. intros (user & Hx & _). discriminate. }
  destruct (String.eqb (password user) given) eqn:Hp.
  - apply String.eqb_eq in Hp. split; [reflexivity|].
    exists user. split; [reflexivity|]. split; [exact Hp|].
    split; [rewrite lookup_insert_ne by discriminate; apply lookup_insert_eq|].
    split; [apply lookup_insert_eq|].
    split; [intros k H1 H2; rewrite !lookup_insert_ne by congruence; reflexivity|].
    unfold employee_dashboard.
    rewrite lookup_insert_ne by discriminate. rewrite lookup_insert_eq.
    rewrite (EMPLOYEE_USERS_names _ _ Hu), Hu. reflexivity.
  - apply String.eqb_neq in Hp. split; [reflexivity|].
    split; [discriminate|]. intros _. split; [reflexivity|].
    intros (user' & Hx & Hy). inversion Hx; subst. contradiction.
Qed.

(** X15: the QR page and the login.  [employee_qr_page] checks no login,
    but the routes that write the session keep this true: the data of the
    QR page are in the session only together with a logged-in employee.  It
    holds of the empty session, [employee_login], [employee_logout] and
    [employee_intake] preserve it, and under it the QR page shows a
    tracking code only to a session with a logged-in employee; after a
    logout it shows none, and the dashboard and the intake route redirect
    to the login page. *)
Theorem session_routes_keep_qr_page_private request session w device_id :
  session_ok ∅ /\
  (session_ok session ->
   session_ok (snd (employee_login request session)) /\
   session_ok (snd (employee_logout session)) /\
   (forall resp s' w',
      employee_intake request session w = (Returns (resp, s'), w') ->
      session_ok s') /\
   (forall mac f url,
      employee_qr_page device_id session = employee_qr_html device_id mac f url ->
      is_Some (session !! "employee_username"))) /\
  (let s' := snd (employee_logout session) in
   employee_qr_page device_id s'
     = plain_text "No QR data found. Please record intake again." /\
   employee_dashboard s' = redirect url_employee_login /\
   employee_intake request s' w = (Returns (redirect url_employee_login, s'), w)).
Proof.
  split; [intros [x Hx]; rewrite lookup_empty in Hx; discriminate|].
  split; [|repeat split].
  intros Hs. repeat split.
  - unfold employee_login.
    destruct (method request); [exact Hs|].
    destruct (EMPLOYEE_USERS !! _) as [user|]; [|exact Hs].
    destruct (String.eqb _ _); [|exact Hs].
    intros _. cbn. rewrite lookup_insert_ne by discriminate.
    rewrite lookup_insert_eq. eauto.
  - intros [x Hx]. cbn in Hx. rewrite lookup_empty in Hx. discriminate.
  - intros resp s' w'. unfold employee_intake.
    destruct (session !! "employee_username") as [u|] eqn:Hu.
    2:{ intros H. inversion H; subst. exact Hs. }
    destruct (method request).
    { intros H. inversion H; subst. exact Hs. }
    unfold try_except, bind at 1.
    destruct (register_device_with_order _ _ _) as [[r|e] w1].
    + intros H. inversion H; subst. intros _.
      rewrite !lookup_insert_ne by discriminate. rewrite Hu. eauto.
    + unfold print, bind, ret. cbn. intros H. inversion H; subst. exact Hs.
  - intros mac f url. unfold employee_qr_page.
    destruct (session !! "last_mac") as [m|] eqn:Hm; [|discriminate].
    intros _. apply Hs. eauto.
Qed.

(** ** The tracking routes *)

Lemma get_device_by_mac_total mac w :
  exists device w',
    get_device_by_mac mac w = (Returns device, w') /\ untouched w w'.
Proof.
  unfold get_device_by_mac.
  destruct (PyStr.is_empty _);
    [eexists _, _; split; [reflexivity | repeat split]|].
  unfold try_except. rewrite lookup_body_run.
  destruct (hd false (faults w));
    [eexists _, _; split; [reflexivity | repeat split]|].
  destruct (hd false (faults (connected w)));
    eexists _, _; (split; [reflexivity | repeat split]).
Qed.

(** X16: the tracking routes.  [track_device] and [track_device_direct]
    always answer with the tracking page, never raise and never write to
    the store.  On POST the page carries the error message exactly when it
    carries no device, and a blank device id gives that message without a
    call to the store; on GET the page is empty and nothing is looked up.
    [track_device] looks up and shows the trimmed id, [track_device_direct]
    looks up the id of the URL and shows it as given. *)
Theorem track_routes_answer request device_id w :
  (exists device error w',
     track_device request w
       = (Returns (track_html
                     (match method request with
                      | GET => ""
                      | POST => PyStr.strip (form_get (form request) "device_id" "")
                      end) device error []), w') /\
     untouched w w' /\
     match method request with
     | GET => device = None /\ error = None /\ w' = w
     | POST =>
         (error = None <-> is_Some device) /\
         (error <> None ->
          error = Some ("Device ID not found. Please verify your MAC address "
                        ++ "or contact the recycling center.")) /\
         (PyStr.strip (form_get (form request) "device_id" "") = "" ->
          device = None /\ w' = w) /\
         (PyStr.strip (form_get (form request) "device_id" "") <> "" ->
          get_device_by_mac
            (Some (PyStr.strip (form_get (form request) "device_id" ""))) w
            = (Returns device, w'))
     end) /\
  (exists device error w',
     track_device_direct device_id w
       = (Returns (track_html device_id device error []), w') /\
     untouched w w' /\
     (error = None <-> is_Some device) /\
     (error <> None ->
      error = Some "Device ID not found. Please contact the recycling center.") /\
     (device_id = "" -> device = None /\ w' = w) /\
     (device_id <> "" ->
      get_device_by_mac (Some device_id) w = (Returns device, w'))).
Proof.
  split.
  - unfold track_device. destruct (method request).
    { eexists _, _, _. split; [reflexivity|]. repeat split. }
    destruct (PyStr.is_empty _) eqn:E.
    + apply is_empty_inv in E.
      eexists _, _, _. split; [unfold bind, ret; reflexivity|].
      split; [repeat split|]. cbn.
      repeat split; try discriminate; try congruence.
      intros [? ?]; discriminate.
    + destruct (get_device_by_mac_total
                  (Some (PyStr.strip (form_get (form request) "device_id" ""))) w)
        as (device & w' & G & U).
      eexists _, _, _. split; [unfold bind, ret; rewrite G; reflexivity|].
      split; [exact U|].
      assert (PyStr.strip (form_get (form request) "device_id" "") <> "") as Hne
        by (intros Hx; rewrite Hx in E; discriminate).
      destruct device; cbn;
        repeat split; try discriminate; try congruence; eauto;
        try (intros [? ?]; discriminate); try contradiction.
  - unfold track_device_direct.
    destruct (PyStr.is_empty device_id) eqn:E.
    + apply is_empty_inv in E.
      eexists _, _, _. split; [unfold bind, ret; reflexivity|].
      split; [repeat split|].
      repeat split; try discriminate; try congruence.
      intros [? ?]; discriminate.
    + destruct (get_device_by_mac_total (Some device_id) w)
        as (device & w' & G & U).
      eexists _, _, _. split; [unfold bind, ret; rewrite G; reflexivity|].
      split; [exact U|].
      assert (device_id <> "") as Hne
        by (intros Hx; rewrite Hx in E; discriminate).
      destruct device; cbn;
        repeat split; try discriminate; try congruence; eauto;
        try (intros [? ?]; discriminate); try contradiction.
Qed.

(** ** Trimmed texts *)





(** ** Scanning the QR code *)



(** ** The connection of the intake *)

(** X18: the intake gives its connection back.  Whatever the form, the
    caller, the failures scheduled and the outcome, every connection that
    is open after [register_device_with_order] was open before it: the
    one the intake acquired has been closed. *)
Theorem intake_releases_its_connection form_data user w :
  dom (sessions (snd (register_device_with_order form_data user w)))
    ⊆ dom (sessions w).
Proof.
  apply elem_of_subseteq. intros c. rewrite !elem_of_dom.
  apply (register_device_with_order_releases form_data user w
           (fst (register_device_with_order form_data user w))).
  apply surjective_pairing.
Qed.
